(** * swddude: host tools over a Serial Wire Debug target

    A shallow embedding of the two host tools of the repository, the
    semihosting console host (swdhost.cpp) and the flash dumper (swddump.cpp
    and its remote-pointer variant), together with the properties their
    specification states about them.

    Target words are 32-bit unsigned integers, represented as [Z] with the
    wrap-around of every arithmetic operation written out.  Every C++ function
    returning [Error] becomes a function from a [World] to an [Error], a value
    and the next [World]; the world carries the target, the schedule of
    transaction outcomes the probe will meet, and the chronological trace of
    everything the tool did to the target, the console and the log. *)

From Stdlib Require Import ZArith List Lia Bool String.
Import ListNotations.
Open Scope Z_scope.

(** ** Words *)

Definition word_t := Z.
Definition halfword_t := Z.

Definition wrap32 (x : Z) : word_t := x mod 2 ^ 32.
Definition wrap16 (x : Z) : halfword_t := x mod 2 ^ 16.

(** ** Errors *)

(** Modelled from the spec: the error library (libs/error) is not among the
    sources.  [Err::success] and [Err::failure] are the two values the tools
    name; the spec speaks of a transient failure (a WAIT acknowledge) on
    which the retry helper re-invokes the operation, here [try_again]. *)
Inductive Error : Type :=
| success
| failure
| try_again.

(** ** The target *)

(** Modelled from the spec: arm.h is not among the sources; these are the
    core registers R0 to R15 of the spec's register file. *)
Inductive Register : Type :=
| R0 | R1 | R2 | R3 | R4 | R5 | R6 | R7
| R8 | R9 | R10 | R11 | R12 | SP | LR | PC.

Definition Register_eq_dec (a b : Register) : {a = b} + {a <> b}.
Proof. decide equality. Defined.

(** Modelled from the spec: the [Target] class (target.h) is not among the
    sources.  A target holds core registers and memory words. *)
Record Target : Type := mkTarget {
  regs : Register -> word_t;
  mem : Z -> word_t          (* the word stored at a word-aligned address *)
}.

Definition set_reg (r : Register) (v : word_t) (tg : Target) : Target :=
  mkTarget (fun r' => if Register_eq_dec r' r then v else regs tg r') (mem tg).

Definition set_mem (a : Z) (v : word_t) (tg : Target) : Target :=
  mkTarget (regs tg) (fun a' => if a' =? a then v else mem tg a').

(** Modelled from the spec: the accesses of [Target].  The tools use its word
    reads and writes, its core register reads and writes and [resume]; the
    spec adds halfword and byte reads, with the lane chosen by the two low
    address bits. *)
Inductive TargetOp : Type :=
| op_read_word (address : Z)
| op_read_halfword (address : Z)
| op_read_byte (address : Z)
| op_write_word (address : Z) (data : word_t)
| op_read_register (r : Register)
| op_write_register (r : Register) (data : word_t)
| op_resume.

Definition lane (tg : Target) (address width : Z) : Z :=
  Z.shiftr (mem tg (Z.land address (Z.lnot 3))) (8 * Z.land address 3)
    mod 2 ^ width.

Definition op_result (o : TargetOp) (tg : Target) : Z :=
  match o with
  | op_read_word a => mem tg a
  | op_read_halfword a => lane tg a 16
  | op_read_byte a => lane tg a 8
  | op_read_register r => regs tg r
  | _ => 0
  end.

Definition op_effect (run : Target -> Target) (o : TargetOp) (tg : Target)
  : Target :=
  match o with
  | op_write_word a v => set_mem a v tg
  | op_write_register r v => set_reg r v tg
  | op_resume => run tg
  | _ => tg
  end.

(** Modelled from the spec: the probe driver, the debug port, the command
    line parser and the USB libraries are not among the sources; a call into
    them either succeeds or reports an error. *)
Inductive ExternCall : Type :=
| swd_initialize | swd_enter_reset | swd_leave_reset
| swd_reset_target (microseconds : Z)
| dap_reset_state
| target_initialize | target_halt | target_reset_halt_state
| CommandLine_parse
| libusb_init | libusb_open_device_with_vid_pid | libusb_get_device
| ftdi_init | ftdi_usb_open | ftdi_set_interface | ftdi_usb_open_dev
| ftdi_usb_reset | ftdi_read_chipid | ftdi_set_bitmode | ftdi_usb_close
| mpsse_open.

(** ** Observable events *)
Inductive Event : Type :=
| ev_target (o : TargetOp) (r : Error) (v : Z)
| ev_extern (c : ExternCall) (r : Error)
| ev_putchar (c : Z)
| ev_fflush
| ev_usleep (microseconds : Z)
| ev_warning_unsupported_operation (operation : word_t)
| ev_warning_unexpected_breakpoint (instr : halfword_t) (pc : word_t)
| ev_warning_unexpected_halt (dfsr : word_t)
| ev_notice_first_words (n : Z)
| ev_notice_word (address : Z) (value : word_t)
| ev_debug_chipid
| ev_set_level
| ev_cleanup (what : string)
| ev_error_stack_print.

(** ** The world *)
Record World : Type := mkWorld {
  target : Target;
  on_resume : Target -> Target;  (* what the core does once resumed *)
  faults : list Error;           (* outcome of each coming transaction;
                                    a transaction past the end succeeds *)
  trace : list Event
}.

Definition Call (A : Type) : Type := World -> Error * A * World.

Definition emit (e : Event) (w : World) : World :=
  mkWorld (target w) (on_resume w) (faults w) (trace w ++ [e]).

Definition ret {A : Type} (e : Error) (a : A) : Call A := fun w => (e, a, w).

Definition log (e : Event) (k : Call unit) : Call unit := fun w => k (emit e w).

(** Modelled from the spec: one transaction with the target.  It meets the
    next scheduled outcome; only a successful transaction changes the target
    or returns data. *)
Definition perform (o : TargetOp) : Call Z := fun w =>
  match hd success (faults w) with
  | success =>
      let v := op_result o (target w) in
      (success, v,
       mkWorld (op_effect (on_resume w) o (target w)) (on_resume w)
               (tl (faults w)) (trace w ++ [ev_target o success v]))
  | e =>
      (e, 0,
       mkWorld (target w) (on_resume w) (tl (faults w))
               (trace w ++ [ev_target o e 0]))
  end.

(** Modelled from the spec: a call into an external library meets the next
    scheduled outcome and leaves the target alone. *)
Definition extern (c : ExternCall) : Call unit := fun w =>
  let e := hd success (faults w) in
  (e, tt,
   mkWorld (target w) (on_resume w) (tl (faults w))
           (trace w ++ [ev_extern c e])).

(** Modelled from the spec: the accessors of [Target] the tools call. *)
Definition read_word (address : Z) : Call Z := perform (op_read_word address).
Definition write_word (address : Z) (data : word_t) : Call Z :=
  perform (op_write_word address data).
Definition read_register (r : Register) : Call Z :=
  perform (op_read_register r).
Definition write_register (r : Register) (data : word_t) : Call Z :=
  perform (op_write_register r data).
Definition resume : Call Z := perform op_resume.

(** ** The checking macros *)

(** Modelled from the spec: [Check] (libs/error) is not among the sources.
    It returns the error of a failed call from the enclosing function. *)
Definition Check {A : Type} (c : Call A) (k : A -> Call unit) : Call unit :=
  fun w =>
    match c w with
    | (success, a, w1) => k a w1
    | (e, _, w1) => (e, tt, w1)
    end.

(** Modelled from the spec: [CheckRetry] (libs/error) is not among the
    sources.  It is the bounded-retry helper: it re-invokes the call on a
    transient failure, for at most [retries] attempts in all, and then checks
    the last result. *)
Fixpoint retry_loop {A : Type} (c : Call A) (more : nat) : Call A := fun w =>
  match c w with
  | (try_again, a, w1) =>
      match more with
      | O => (try_again, a, w1)
      | S m => retry_loop c m w1
      end
  | r => r
  end.

Definition CheckRetry {A : Type} (c : Call A) (retries : nat)
  (k : A -> Call unit) : Call unit :=
  Check (retry_loop c (Nat.pred retries)) k.

(** ** Loops and functions that contain one *)

(** A loop runs on fuel, one unit per iteration; a function that contains a
    loop answers [None] when the fuel ran out with the loop still running. *)
Inductive LoopExit : Type :=
| loop_finished                 (* the condition became false *)
| loop_returned (e : Error)     (* the body returned from the function *)
| loop_running.                 (* out of fuel *)

Fixpoint loop {S : Type} (fuel : nat) (cond : S -> bool) (step : S -> S)
  (body : S -> Call unit) (s : S) (w : World) : LoopExit * World :=
  if cond s then
    match fuel with
    | O => (loop_running, w)
    | Datatypes.S f =>
        match body s w with
        | (success, _, w1) => loop f cond step body (step s) w1
        | (e, _, w1) => (loop_returned e, w1)
        end
    end
  else (loop_finished, w).

Definition Run : Type := World -> option Error * World.

(** [Check] inside a function that contains a loop. *)
Definition CheckThen {A : Type} (c : Call A) (k : Run) : Run := fun w =>
  match c w with
  | (success, _, w1) => k w1
  | (e, _, w1) => (Some e, w1)
  end.

Definition CheckRun (c : Run) (k : Run) : Run := fun w =>
  match c w with
  | (Some success, w1) => k w1
  | r => r
  end.

Definition LogThen (e : Event) (k : Run) : Run := fun w => k (emit e w).

(** Modelled from the spec: [CheckCleanup] (libs/error) is not among the
    sources.  A failed call records its error in [check_error] and jumps to
    a cleanup label. *)
Definition CheckCleanup {A : Type} (c : Call A) (label : Error -> Run)
  (k : Run) : Run := fun w =>
  match c w with
  | (success, _, w1) => k w1
  | (e, _, w1) => label e w1
  end.

(** ** Register addresses and fields *)

(** Modelled from the spec: armv6m_v7m.h and lpc11xx_13xx.h are not among the
    sources; the addresses and bit fields are the ones the spec gives. *)
Module SCB.
Definition DFSR : Z := 0xE000ED30.
Definition DFSR_reason_mask : Z := 0x1F.
Definition DFSR_BKPT : Z := 0x2.
End SCB.

Module DCB.
Definition DHCSR : Z := 0xE000EDF0.
Definition DHCSR_S_HALT : Z := Z.shiftl 1 17.
End DCB.

Module SYSCON.
Definition SYSMEMREMAP : Z := 0x40048000.
Definition SYSMEMREMAP_MAP_USER_FLASH : Z := 2.
End SYSCON.

(** ** swdhost.cpp: the semihosting host *)
Module swdhost.

(** [putchar] converts its argument to [unsigned char]. *)
Definition write_char (parameter : word_t) : Call unit := fun w =>
  (success, tt, emit ev_fflush (emit (ev_putchar (parameter mod 2 ^ 8)) w)).

(** [halfword_t instr = pc & 2 ? instr_word >> 16 : instr_word & 0xFFFF] *)
Definition extract_instr (pc instr_word : word_t) : halfword_t :=
  wrap16 (if negb (Z.land pc 2 =? 0)
          then Z.shiftr instr_word 16
          else Z.land instr_word 0xFFFF).

Definition handle_halt : Call unit :=
  CheckRetry (read_word SCB.DFSR) 100 (fun dfsr =>
  if Z.land dfsr SCB.DFSR_reason_mask =? SCB.DFSR_BKPT then
    CheckRetry (read_register PC) 100 (fun pc =>
    let instr_word_address := Z.land pc (Z.lnot 0x3) in
    CheckRetry (read_word instr_word_address) 100 (fun instr_word =>
    let instr := extract_instr pc instr_word in
    if instr =? 0xBEAB then
      CheckRetry (read_register R0) 100 (fun operation =>
      CheckRetry (read_register R1) 100 (fun parameter =>
      let advance_and_resume :=
        let pc := wrap32 (pc + 2) in
        CheckRetry (write_register PC pc) 100 (fun _ =>
        Check resume (fun _ =>
        ret success tt)) in
      if operation =? 0x3 then
        Check (write_char parameter) (fun _ => advance_and_resume)
      else
        log (ev_warning_unsupported_operation operation) (ret failure tt)))
    else
      log (ev_warning_unexpected_breakpoint instr pc) (ret failure tt)))
  else
    log (ev_warning_unexpected_halt dfsr) (ret failure tt)).

(** The outer loop of [host_main]: [while (true)] around this body. *)
Definition poll (_ : unit) : Call unit :=
  CheckRetry (read_word DCB.DHCSR) 100 (fun dhcsr =>
  if negb (Z.land dhcsr DCB.DHCSR_S_HALT =? 0) then
    Check handle_halt (fun _ => ret success tt)
  else
    ret success tt).

Definition polling_loop (fuel : nat) (w : World) : LoopExit * World :=
  loop fuel (fun _ => true) (fun s => s) poll tt w.

Definition host_main (fuel : nat) : Run :=
  CheckThen (extern swd_initialize) (
  CheckThen (extern swd_enter_reset) (
  LogThen (ev_usleep 10000) (
  CheckThen (extern dap_reset_state) (
  CheckThen (extern target_initialize) (
  CheckThen (extern target_reset_halt_state) (
  CheckThen (extern swd_leave_reset) (fun w =>
  match polling_loop fuel w with
  | (loop_finished, w1) => (Some success, w1)   (* return Err::success *)
  | (loop_returned e, w1) => (Some e, w1)
  | (loop_running, w1) => (None, w1)
  end))))))).

Definition programmer_table : list string := ["um232h"; "bus_blaster"]%string.

Definition lookup_programmer (name : string) : Call unit :=
  if existsb (String.eqb name) programmer_table
  then ret success tt else ret failure tt.

(** The cleanup labels of [error_main], from the last one up; control falls
    through from each label to the next.  [get_failed] is also
    [interface_failed] and [open_failed], and [reset_failed] is also
    [read_failed]. *)
Definition libusb_init_failed (check_error : Error) : Run :=
  fun w => (Some check_error, w).
Definition ftdi_init_failed (check_error : Error) : Run :=
  LogThen (ev_cleanup "libusb_exit") (libusb_init_failed check_error).
Definition libusb_open_failed (check_error : Error) : Run :=
  LogThen (ev_cleanup "ftdi_deinit") (ftdi_init_failed check_error).
Definition get_failed (check_error : Error) : Run :=
  LogThen (ev_cleanup "libusb_close") (libusb_open_failed check_error).
Definition reset_failed (check_error : Error) : Run :=
  CheckThen (extern ftdi_usb_close) (get_failed check_error).
Definition host_failed (check_error : Error) : Run :=
  CheckThen (extern ftdi_set_bitmode) (reset_failed check_error).

Definition error_main (programmer : string) (fuel : nat) : Run :=
  CheckThen (lookup_programmer programmer) (
  CheckCleanup (extern libusb_init) libusb_init_failed (
  CheckCleanup (extern ftdi_init) ftdi_init_failed (
  CheckCleanup (extern libusb_open_device_with_vid_pid) libusb_open_failed (
  CheckCleanup (extern libusb_get_device) get_failed (
  CheckCleanup (extern ftdi_set_interface) get_failed (
  CheckCleanup (extern ftdi_usb_open_dev) get_failed (
  CheckCleanup (extern ftdi_usb_reset) reset_failed (
  CheckCleanup (extern ftdi_read_chipid) reset_failed (
  LogThen ev_debug_chipid (fun w =>
  match host_main fuel w with
  | (Some e, w1) => host_failed e w1
  | (None, w1) => (None, w1)
  end)))))))))).

(** [main]: the exit code, or [None] while the tool is still running. *)
Definition main (programmer : string) (fuel : nat)
  : World -> option Z * World := fun w =>
  let failure_label w := (Some 1, emit ev_error_stack_print w) in
  match extern CommandLine_parse w with
  | (success, _, w1) =>
      match error_main programmer fuel (emit ev_set_level w1) with
      | (Some success, w2) => (Some 0, w2)
      | (Some _, w2) => failure_label w2
      | (None, w2) => (None, w2)
      end
  | (_, _, w1) => failure_label w1
  end.

End swdhost.

(** ** swddump.cpp: the flash dumper *)
Module swddump.

Definition unmap_boot_sector : Call Z := write_word 0x40048000 2.

(** [for (unsigned i = 0; i < (n*4); i += 4)] *)
Definition dump_flash (n : Z) (fuel : nat) : Run :=
  LogThen (ev_notice_first_words n) (fun w =>
  match loop fuel (fun i => i <? wrap32 (n * 4)) (fun i => wrap32 (i + 4))
             (fun i => Check (read_word i) (fun buffer =>
                       log (ev_notice_word i buffer) (ret success tt)))
             0 w with
  | (loop_finished, w1) => (Some success, w1)
  | (loop_returned e, w1) => (Some e, w1)
  | (loop_running, w1) => (None, w1)
  end).

(** [count] is the [int] command-line flag, converted to [unsigned]. *)
Definition run_experiment (count : Z) (fuel : nat) : Run :=
  CheckThen (extern swd_initialize) (
  CheckThen (extern (swd_reset_target 100000)) (
  CheckThen (extern dap_reset_state) (
  CheckThen (extern target_initialize) (
  CheckThen (extern target_halt) (
  CheckThen unmap_boot_sector (
  CheckRun (dump_flash (wrap32 count) fuel) (fun w =>
  (Some success, w)))))))).

(** The cleanup labels of [error_main]; [reset_failed] is also
    [interface_failed] and [read_failed]. *)
Definition init_failed (check_error : Error) : Run :=
  fun w => (Some check_error, w).
Definition open_failed (check_error : Error) : Run :=
  LogThen (ev_cleanup "ftdi_deinit") (init_failed check_error).
Definition reset_failed (check_error : Error) : Run :=
  CheckThen (extern ftdi_usb_close) (open_failed check_error).
Definition experiment_failed (check_error : Error) : Run :=
  CheckThen (extern ftdi_set_bitmode) (reset_failed check_error).

Definition error_main (count : Z) (fuel : nat) : Run :=
  CheckCleanup (extern ftdi_init) init_failed (
  CheckCleanup (extern ftdi_usb_open) open_failed (
  CheckCleanup (extern ftdi_usb_reset) reset_failed (
  CheckCleanup (extern ftdi_set_interface) reset_failed (
  CheckCleanup (extern ftdi_read_chipid) reset_failed (
  LogThen ev_debug_chipid (fun w =>
  match run_experiment count fuel w with
  | (Some e, w1) => experiment_failed e w1
  | (None, w1) => (None, w1)
  end)))))).

Definition main (count : Z) (fuel : nat) : World -> option Z * World :=
  fun w =>
  let failure_label w := (Some 1, emit ev_error_stack_print w) in
  match extern CommandLine_parse w with
  | (success, _, w1) =>
      match error_main count fuel (emit ev_set_level w1) with
      | (Some success, w2) => (Some 0, w2)
      | (Some _, w2) => failure_label w2
      | (None, w2) => (None, w2)
      end
  | (_, _, w1) => failure_label w1
  end.

End swddump.

(** ** The flash dumper written with remote pointers (the unnamed variant) *)
Module swddump_rptr.

(** Modelled from the spec: rptr.h is not among the sources.  A remote pointer
    is a typed 32-bit target address with arithmetic in element units; it is
    never dereferenced on the host. *)
Record rptr_const : Type := mk_rptr { bits : Z }.

Definition sizeof_word_t : Z := 4.
Definition rptr_of (address : Z) : rptr_const := mk_rptr (wrap32 address).
Definition rptr_lt (a b : rptr_const) : bool := bits a <? bits b.
Definition rptr_incr (p : rptr_const) : rptr_const :=
  mk_rptr (wrap32 (bits p + sizeof_word_t)).

Definition unmap_boot_sector : Call Z :=
  write_word SYSCON.SYSMEMREMAP SYSCON.SYSMEMREMAP_MAP_USER_FLASH.

(** [for (rptr_const<word_t> i(0); i < top; ++i)] *)
Definition dump_flash (n : Z) (fuel : nat) : Run :=
  LogThen (ev_notice_first_words n) (fun w =>
  let top := rptr_of (n * sizeof_word_t) in
  match loop fuel (fun i => rptr_lt i top) rptr_incr
             (fun i => Check (read_word (bits i)) (fun buffer =>
                       log (ev_notice_word (bits i) buffer) (ret success tt)))
             (rptr_of 0) w with
  | (loop_finished, w1) => (Some success, w1)
  | (loop_returned e, w1) => (Some e, w1)
  | (loop_running, w1) => (None, w1)
  end).

Definition run_experiment (count : Z) (fuel : nat) : Run :=
  CheckThen (extern swd_initialize) (
  CheckThen (extern swd_enter_reset) (
  LogThen (ev_usleep 100000) (
  CheckThen (extern swd_leave_reset) (
  CheckThen (extern dap_reset_state) (
  CheckThen (extern target_initialize) (
  CheckThen (extern target_halt) (
  CheckThen unmap_boot_sector (
  CheckRun (dump_flash (wrap32 count) fuel) (fun w =>
  (Some success, w)))))))))).

(** Modelled from the spec: the [lookup_programmer] this variant calls, which
    fills an [MPSSEConfig], is not among the sources (the one of swdhost.cpp
    is private to that file and has another signature).  It is the lookup of
    the programmer selector in the table of bridge configurations; nothing is
    assumed of it here, it is an argument of [error_main] and [main]. *)
Definition error_main (lookup_programmer : string -> Call unit)
  (programmer : string) (count : Z) (fuel : nat) : Run :=
  CheckThen (lookup_programmer programmer) (
  CheckThen (extern mpsse_open) (
  CheckRun (run_experiment count fuel) (fun w =>
  (Some success, w)))).

Definition main (lookup_programmer : string -> Call unit)
  (programmer : string) (count : Z) (fuel : nat)
  : World -> option Z * World := fun w =>
  let failure_label w := (Some 1, emit ev_error_stack_print w) in
  match extern CommandLine_parse w with
  | (success, _, w1) =>
      match error_main lookup_programmer programmer count fuel
              (emit ev_set_level w1) with
      | (Some success, w2) => (Some 0, w2)
      | (Some _, w2) => failure_label w2
      | (None, w2) => (None, w2)
      end
  | (_, _, w1) => failure_label w1
  end.

End swddump_rptr.

(** * Vocabulary of the statements *)

(** Every scheduled transaction succeeds. *)
Definition all_succeed (w : World) : Prop := Forall (eq success) (faults w).

(** [k] attempts of [o] that each met a transient failure. *)
Definition attempts (o : TargetOp) (k : nat) : list Event :=
  repeat (ev_target o try_again 0) k.

(** The world after [k] such attempts. *)
Definition after_attempts (o : TargetOp) (k : nat) (w : World) : World :=
  mkWorld (target w) (on_resume w) (skipn k (faults w))
          (trace w ++ attempts o k).

(** A straight-line plan: target accesses, each under a retry bound, and
    events of the host.  Once the values a halted target holds are known, what
    [handle_halt] does is such a plan ([halt_plan] below, which the theorem
    [handle_halt_plan] relates to the code). *)
Inductive Action : Type :=
| act_op (retries : nat) (o : TargetOp)
| act_emit (e : Event).

Fixpoint run_plan (p : list Action) (final : Error) : Call unit :=
  match p with
  | [] => ret final tt
  | act_op n o :: p' => CheckRetry (perform o) n (fun _ => run_plan p' final)
  | act_emit e :: p' => log e (run_plan p' final)
  end.

Definition reads_of_breakpoint (tg : Target) : list Action :=
  [ act_op 100 (op_read_word SCB.DFSR);
    act_op 100 (op_read_register PC);
    act_op 100 (op_read_word (Z.land (regs tg PC) (Z.lnot 0x3))) ].

Definition reads_of_request : list Action :=
  [ act_op 100 (op_read_register R0);
    act_op 100 (op_read_register R1) ].

Definition fetched_instr (tg : Target) : halfword_t :=
  swdhost.extract_instr (regs tg PC)
    (mem tg (Z.land (regs tg PC) (Z.lnot 0x3))).

Definition halt_plan (tg : Target) : list Action * Error :=
  let dfsr := mem tg SCB.DFSR in
  if Z.land dfsr SCB.DFSR_reason_mask =? SCB.DFSR_BKPT then
    if fetched_instr tg =? 0xBEAB then
      if regs tg R0 =? 0x3 then
        (reads_of_breakpoint tg ++ reads_of_request ++
         [ act_emit (ev_putchar (regs tg R1 mod 2 ^ 8));
           act_emit ev_fflush;
           act_op 100 (op_write_register PC (wrap32 (regs tg PC + 2)));
           act_op 1 op_resume ],
         success)
      else
        (reads_of_breakpoint tg ++ reads_of_request ++
         [ act_emit (ev_warning_unsupported_operation (regs tg R0)) ],
         failure)
    else
      (reads_of_breakpoint tg ++
       [ act_emit (ev_warning_unexpected_breakpoint (fetched_instr tg)
                                                    (regs tg PC)) ],
       failure)
  else
    ([ act_op 100 (op_read_word SCB.DFSR);
       act_emit (ev_warning_unexpected_halt dfsr) ],
     failure).

(** The traces a plan can leave, with the error it ends in and the target it
    leaves: every access is a group of transient attempts, fewer than its
    bound, closed by the attempt that decided it. *)
Inductive runs (run : Target -> Target)
  : Target -> list Action -> Error -> list Event -> Error -> Target -> Prop :=
| runs_nil tg final :
    runs run tg [] final [] final tg
| runs_emit tg e p final l r tg' :
    runs run tg p final l r tg' ->
    runs run tg (act_emit e :: p) final (e :: l) r tg'
| runs_op_ok tg n o j p final l r tg' :
    (j <= Nat.pred n)%nat ->
    runs run (op_effect run o tg) p final l r tg' ->
    runs run tg (act_op n o :: p) final
         (attempts o j ++ ev_target o success (op_result o tg) :: l) r tg'
| runs_op_fail tg n o j e p final :
    (j <= Nat.pred n)%nat ->
    e <> success ->
    (e = try_again -> j = Nat.pred n) ->
    runs run tg (act_op n o :: p) final
         (attempts o j ++ [ev_target o e 0]) e tg.

Definition is_read (o : TargetOp) : bool :=
  match o with
  | op_read_word _ | op_read_halfword _ | op_read_byte _
  | op_read_register _ => true
  | _ => false
  end.

(** One iteration of the outer loop of [host_main] as a plan: the DHCSR poll,
    followed by the plan of [handle_halt] when the core is halted. *)
Definition poll_plan (tg : Target) : list Action * Error :=
  if negb (Z.land (mem tg DCB.DHCSR) DCB.DHCSR_S_HALT =? 0) then
    (act_op 100 (op_read_word DCB.DHCSR) :: fst (halt_plan tg),
     snd (halt_plan tg))
  else
    ([act_op 100 (op_read_word DCB.DHCSR)], success).

(** An observer of the polling loop.  While it is [polling], the only event
    it accepts is a read of DHCSR, and only a successful one that returns
    S_HALT set moves it to [handling]; there it accepts everything, and a
    successful resume moves it back. *)
Inductive Phase : Type := polling | handling.

Definition observe (ph : Phase) (ev : Event) : option Phase :=
  match ph with
  | polling =>
      match ev with
      | ev_target (op_read_word a) r v =>
          if a =? DCB.DHCSR then
            match r with
            | success =>
                if negb (Z.land v DCB.DHCSR_S_HALT =? 0)
                then Some handling else Some polling
            | _ => Some polling
            end
          else None
      | _ => None
      end
  | handling =>
      match ev with
      | ev_target op_resume success _ => Some polling
      | _ => Some handling
      end
  end.

Fixpoint observe_all (ph : Phase) (l : list Event) : option Phase :=
  match l with
  | [] => Some ph
  | ev :: l' =>
      match observe ph ev with
      | Some ph' => observe_all ph' l'
      | None => None
      end
  end.

Definition is_dhcsr_read (ev : Event) : Prop :=
  exists e v, ev = ev_target (op_read_word DCB.DHCSR) e v.

(** The plan has no resume in it. *)
Definition no_resume (a : Action) : Prop :=
  match a with
  | act_op _ o => o <> op_resume
  | act_emit e => forall r v, e <> ev_target op_resume r v
  end.

(** The events that are accesses to target memory, of any width. *)
Definition is_memory_access (ev : Event) : bool :=
  match ev with
  | ev_target (op_read_word _) _ _
  | ev_target (op_read_halfword _) _ _
  | ev_target (op_read_byte _) _ _
  | ev_target (op_write_word _ _) _ _ => true
  | _ => false
  end.

(** The accesses [handle_halt] can make to a target halted in state [tg]. *)
Definition halt_ops (tg : Target) : list TargetOp :=
  [ op_read_word SCB.DFSR;
    op_read_register PC;
    op_read_word (Z.land (regs tg PC) (Z.lnot 0x3));
    op_read_register R0;
    op_read_register R1;
    op_write_register PC (wrap32 (regs tg PC + 2));
    op_resume ].

(** The part of a plan that only reads the target and talks to the host. *)
Definition only_reads (a : Action) : Prop :=
  match a with
  | act_op _ o => is_read o = true
  | act_emit e => forall o r v, e <> ev_target o r v
  end.

(** The word addresses [4 * first], ..., [4 * (first + n - 1)], and what a
    dump of them logs when every read succeeds: each read, followed by the
    notice of the address and of the value read. *)
Definition word_addresses (first n : nat) : list Z :=
  map (fun k => 4 * Z.of_nat k) (seq first n).

Definition dump_events (tg : Target) (addresses : list Z) : list Event :=
  flat_map (fun a => [ ev_target (op_read_word a) success (mem tg a);
                       ev_notice_word a (mem tg a) ]) addresses.

(** The first [d] scheduled transactions succeed. *)
Definition succeed_first (d : nat) (fs : list Error) : Prop :=
  forall i, (i < d)%nat -> nth i fs success = success.

(** Every register write of a trace is a write to PC of [p + 2], a 32-bit
    sum, for a value [p] that a read of PC in the trace has returned. *)
Definition pc_writes_ok (l : list Event) : Prop :=
  forall reg x e v, In (ev_target (op_write_register reg x) e v) l ->
    reg = PC /\
    exists p,
      In (ev_target (op_read_register PC) success p) l /\
      x = wrap32 (p + 2) /\
      (Z.even p = true -> Z.even x = true) /\
      x <> wrap32 (p + 1) /\ x <> p + 1.

(** ** Sample targets

    A core halted on [BKPT 0xAB] at 0x102 (the high halfword of the word at
    0x100), asking for the operation in [r0] with parameter ['X']. *)
Definition halted_on_request (operation : word_t) : Target :=
  mkTarget
    (fun r => match r with
              | R0 => operation
              | R1 => 0x58
              | PC => 0x102
              | _ => 0
              end)
    (fun a => if a =? SCB.DFSR then SCB.DFSR_BKPT
              else if a =? DCB.DHCSR then DCB.DHCSR_S_HALT
              else if a =? 0x100 then 0xBEAB0000
              else 0).

Definition quiet (tg : Target) (fs : list Error) : World :=
  mkWorld tg (fun t => t) fs [].

(** The write-character request above, and a request for operation 0x18
    (SYS_EXIT), each with every transaction succeeding. *)
Definition writec_world : World := quiet (halted_on_request 0x3) [].
Definition exit_world : World := quiet (halted_on_request 0x18) [].

(** ** Vocabulary of the further properties *)

(** The world with the same target and an empty fault schedule: every
    transaction succeeds in it. *)
Definition no_faults (w : World) : World :=
  mkWorld (target w) (on_resume w) [] [].

(** The events that are not failed attempts at a target access. *)
Definition successful (ev : Event) : bool :=
  match ev with
  | ev_target _ success _ => true
  | ev_target _ _ _ => false
  | _ => true
  end.

Definition is_console (ev : Event) : bool :=
  match ev with
  | ev_putchar _ | ev_fflush => true
  | _ => false
  end.

Definition is_target_event (ev : Event) : bool :=
  match ev with
  | ev_target _ _ _ => true
  | _ => false
  end.

(** What a plan does when nothing fails: its events, and the target it
    leaves. *)
Fixpoint plan_events (run : Target -> Target) (tg : Target)
  (p : list Action) : list Event :=
  match p with
  | [] => []
  | act_op _ o :: p' =>
      ev_target o success (op_result o tg) ::
      plan_events run (op_effect run o tg) p'
  | act_emit e :: p' => e :: plan_events run tg p'
  end.

Fixpoint plan_target (run : Target -> Target) (tg : Target)
  (p : list Action) : Target :=
  match p with
  | [] => tg
  | act_op _ o :: p' => plan_target run (op_effect run o tg) p'
  | act_emit _ :: p' => plan_target run tg p'
  end.

Definition emits_successful (a : Action) : Prop :=
  match a with
  | act_op _ _ => True
  | act_emit e => successful e = true
  end.

(** A core halted on a write-character request, as the host sees it. *)
Definition write_char_pending (tg : Target) : Prop :=
  Z.land (mem tg DCB.DHCSR) DCB.DHCSR_S_HALT <> 0 /\
  Z.land (mem tg SCB.DFSR) SCB.DFSR_reason_mask = SCB.DFSR_BKPT /\
  fetched_instr tg = 0xBEAB /\
  regs tg R0 = 0x3.

(** The target once the host has served such a request: PC moved past the
    breakpoint, and the core resumed. *)
Definition served (run : Target -> Target) (tg : Target) : Target :=
  run (set_reg PC (wrap32 (regs tg PC + 2)) tg).

(** The states in which the core halts over [n] served requests, and the
    state it is left in after them. *)
Fixpoint session_halts (run : Target -> Target) (tg : Target) (n : nat)
  : list Target :=
  match n with
  | O => []
  | S n' => tg :: session_halts run (served run tg) n'
  end.

Fixpoint session_end (run : Target -> Target) (tg : Target) (n : nat)
  : Target :=
  match n with
  | O => tg
  | S n' => session_end run (served run tg) n'
  end.

(** What the console receives for one character. *)
Definition console_char (c : Z) : list Event := [ev_putchar c; ev_fflush].

(** The calls a tool makes before it turns to the target's memory, and the
    events a successful one leaves: the call, and the pause that follows the
    assertion of reset. *)
Definition host_init_calls : list ExternCall :=
  [ swd_initialize; swd_enter_reset; dap_reset_state; target_initialize;
    target_reset_halt_state; swd_leave_reset ].

Definition dump_init_calls : list ExternCall :=
  [ swd_initialize; swd_reset_target 100000; dap_reset_state;
    target_initialize; target_halt ].

Definition dump_rptr_init_calls : list ExternCall :=
  [ swd_initialize; swd_enter_reset; swd_leave_reset; dap_reset_state;
    target_initialize; target_halt ].

Definition call_events (pause : Z) (c : ExternCall) : list Event :=
  match c with
  | swd_enter_reset => [ev_extern c success; ev_usleep pause]
  | _ => [ev_extern c success]
  end.

(** The calls [error_main] makes into the USB libraries before it runs the
    tool proper, and what undoes each of them. *)
Definition host_usb_calls : list ExternCall :=
  [ libusb_init; ftdi_init; libusb_open_device_with_vid_pid;
    libusb_get_device; ftdi_set_interface; ftdi_usb_open_dev;
    ftdi_usb_reset; ftdi_read_chipid ].

Definition dump_usb_calls : list ExternCall :=
  [ ftdi_init; ftdi_usb_open; ftdi_usb_reset; ftdi_set_interface;
    ftdi_read_chipid ].

Definition release_of (c : ExternCall) : list Event :=
  match c with
  | libusb_init => [ev_cleanup "libusb_exit"]
  | ftdi_init => [ev_cleanup "ftdi_deinit"]
  | libusb_open_device_with_vid_pid => [ev_cleanup "libusb_close"]
  | ftdi_usb_open_dev | ftdi_usb_open => [ev_extern ftdi_usb_close success]
  | _ => []
  end.

(** The releases of what [calls] acquired, last acquired first. *)
Definition releases (calls : list ExternCall) : list Event :=
  rev (flat_map release_of calls).

Definition succeeded (calls : list ExternCall) : list Event :=
  map (fun c => ev_extern c success) calls.

(** The world in which [error_main] runs the tool proper, once [calls] have
    all succeeded. *)
Definition opened (calls : list ExternCall) (w : World) : World :=
  mkWorld (target w) (on_resume w) (skipn (List.length calls) (faults w))
          (trace w ++ succeeded calls ++ [ev_debug_chipid]).

(** ** Vocabulary of the exit codes *)

(** What [main] makes of the command-line parse and of [error_main], given
    the result [parsed] of the parse, the result [ran] of [error_main] in the
    world the parse left (after the log level was set) and the [result] of
    [main]: the exit code is 0 exactly when both succeeded, and then nothing
    is printed; when the parse failed, [error_main] is not entered, the error
    stack is printed and the exit code is 1; when [error_main] failed, the
    error stack is printed after all it did and the exit code is 1; [main] is
    still running only while [error_main] is; there is no other exit code. *)
Definition exits (parsed : Error * unit * World) (ran : option Error * World)
  (result : option Z * World) : Prop :=
  (fst result = Some 0 <->
   fst (fst parsed) = success /\ fst ran = Some success) /\
  (fst result = Some 0 -> snd result = snd ran) /\
  (fst (fst parsed) <> success ->
   result = (Some 1, emit ev_error_stack_print (snd parsed))) /\
  (forall e,
     fst (fst parsed) = success -> fst ran = Some e -> e <> success ->
     result = (Some 1, emit ev_error_stack_print (snd ran))) /\
  (fst result = None <-> fst (fst parsed) = success /\ fst ran = None) /\
  (forall code, fst result = Some code -> code = 0 \/ code = 1).

(** A function that contains a loop returns, whatever the world. *)
Definition returns (r : Run) : Prop := forall w, fst (r w) <> None.

(** The parse of the command line failed. *)
Definition bad_command_line : World := quiet (halted_on_request 0x3) [failure].

(** The parse succeeded and the first USB call failed. *)
Definition no_probe : World :=
  quiet (halted_on_request 0x3) [success; failure].

(** * Properties *)

(** ** Transactions and the retry helper *)

Lemma world_eta w :
  mkWorld (target w) (on_resume w) (faults w) (trace w) = w.
Proof. now destruct w. Qed.

Lemma after_attempts_0 o w : after_attempts o 0 w = w.
Proof.
  unfold after_attempts, attempts; simpl.
  rewrite app_nil_r. apply world_eta.
Qed.

Lemma perform_all_succeed o w :
  all_succeed w ->
  perform o w =
  (success, op_result o (target w),
   mkWorld (op_effect (on_resume w) o (target w)) (on_resume w)
           (tl (faults w))
           (trace w ++ [ev_target o success (op_result o (target w))])).
Proof.
  unfold all_succeed, perform. intros H.
  destruct (faults w) as [|e fs]; simpl; [reflexivity|].
  inversion H; subst. reflexivity.
Qed.

Lemma retry_loop_0 {A} (c : Call A) w : retry_loop c 0 w = c w.
Proof. simpl. destruct (c w) as [[[] a] w1]; reflexivity. Qed.

(** A retried transaction is [k] transient attempts followed by one decisive
    attempt; [k] uses up the bound only when that last attempt is transient
    too. *)
Lemma retry_loop_perform o more w :
  exists k, (k <= more)%nat /\
    retry_loop (perform o) more w = perform o (after_attempts o k w) /\
    (hd success (faults (after_attempts o k w)) = try_again -> k = more).
Proof.
  revert w. induction more as [|m IH]; intros w.
  - exists 0%nat. rewrite after_attempts_0, retry_loop_0. auto.
  - destruct (hd success (faults w)) eqn:Hhd.
    + exists 0%nat. rewrite after_attempts_0. split; [lia|]. split.
      * simpl. unfold perform at 1. rewrite Hhd. unfold perform. now rewrite Hhd.
      * congruence.
    + exists 0%nat. rewrite after_attempts_0. split; [lia|]. split.
      * simpl. unfold perform at 1. rewrite Hhd. unfold perform. now rewrite Hhd.
      * congruence.
    + destruct (faults w) as [|e fs] eqn:Hf; simpl in Hhd; [discriminate|].
      subst e.
      destruct (IH (mkWorld (target w) (on_resume w) fs
                            (trace w ++ [ev_target o try_again 0])))
        as (k & Hk & Heq & Hlast).
      exists (S k). split; [lia|].
      assert (Hw : after_attempts o (S k) w =
                   after_attempts o k
                     (mkWorld (target w) (on_resume w) fs
                              (trace w ++ [ev_target o try_again 0]))).
      { unfold after_attempts, attempts; simpl. rewrite Hf. simpl.
        now rewrite <- app_assoc. }
      rewrite Hw. split.
      * simpl. unfold perform at 1. rewrite Hf. simpl. exact Heq.
      * intros H. f_equal. auto.
Qed.

Lemma op_effect_read run o tg : is_read o = true -> op_effect run o tg = tg.
Proof. destruct o; simpl; congruence. Qed.

Lemma CheckRetry_ext o n (k k' : Z -> Call unit) w :
  (forall v w1, k v w1 = k' v w1) ->
  CheckRetry (perform o) n k w = CheckRetry (perform o) n k' w.
Proof.
  intros H. unfold CheckRetry, Check.
  destruct (retry_loop (perform o) (Nat.pred n) w) as [[[] v] w1]; auto.
Qed.

(** After a successful read the continuation sees the value the target holds
    and an unchanged target. *)
Lemma CheckRetry_read o n (k : Z -> Call unit) (k' : Call unit) w :
  is_read o = true ->
  (forall w1, target w1 = target w -> k (op_result o (target w)) w1 = k' w1) ->
  CheckRetry (perform o) n k w = CheckRetry (perform o) n (fun _ => k') w.
Proof.
  intros Hread H. unfold CheckRetry, Check.
  destruct (retry_loop_perform o (Nat.pred n) w) as (j & _ & -> & _).
  unfold perform.
  destruct (hd success (faults (after_attempts o j w))); simpl; auto.
  apply H. simpl. now apply op_effect_read.
Qed.

Lemma Check_resume k w :
  Check resume k w = CheckRetry (perform op_resume) 1 k w.
Proof.
  unfold CheckRetry, Check, resume. simpl Nat.pred. now rewrite retry_loop_0.
Qed.

(** [handle_halt] is the plan of the target it is called on. *)
Lemma handle_halt_plan w :
  swdhost.handle_halt w =
  run_plan (fst (halt_plan (target w))) (snd (halt_plan (target w))) w.
Proof.
  unfold swdhost.handle_halt, halt_plan, fetched_instr, read_word,
    read_register, write_register.
  destruct (Z.land (mem (target w) SCB.DFSR) SCB.DFSR_reason_mask
            =? SCB.DFSR_BKPT) eqn:Hreason; cbn [fst snd].
  2:{ cbn [run_plan]. apply CheckRetry_read; [reflexivity|].
      intros w1 _. cbn [op_result]. now rewrite Hreason. }
  destruct (swdhost.extract_instr (regs (target w) PC)
              (mem (target w) (Z.land (regs (target w) PC) (Z.lnot 3)))
            =? 0xBEAB) eqn:Hinstr; cbn [fst snd].
  2:{ cbn [run_plan reads_of_breakpoint app].
      apply CheckRetry_read; [reflexivity|].
      intros w1 H1. cbn [op_result]. rewrite Hreason.
      apply CheckRetry_read; [reflexivity|].
      intros w2 H2. rewrite H1 in *. cbn [op_result].
      apply CheckRetry_read; [reflexivity|].
      intros w3 H3. rewrite H2 in *. cbn [op_result]. cbv zeta.
      now rewrite Hinstr. }
  destruct (regs (target w) R0 =? 3) eqn:Hop; cbn [fst snd];
    cbn [run_plan reads_of_breakpoint reads_of_request app];
    (apply CheckRetry_read; [reflexivity|]);
    intros w1 H1; cbn [op_result]; rewrite Hreason;
    (apply CheckRetry_read; [reflexivity|]);
    intros w2 H2; rewrite H1 in *; cbn [op_result];
    (apply CheckRetry_read; [reflexivity|]);
    intros w3 H3; rewrite H2 in *; cbn [op_result]; cbv zeta;
    rewrite Hinstr;
    (apply CheckRetry_read; [reflexivity|]);
    intros w4 H4; rewrite H3 in *; cbn [op_result];
    (apply CheckRetry_read; [reflexivity|]);
    intros w5 H5; rewrite H4 in *; cbn [op_result];
    rewrite Hop; [|reflexivity].
  unfold Check at 1, swdhost.write_char, log.
  apply CheckRetry_ext. intros _ w6. apply Check_resume.
Qed.

(** The trace a plan leaves is one of its runs. *)
Lemma run_plan_runs p final : forall w r w',
  run_plan p final w = (r, tt, w') ->
  on_resume w' = on_resume w /\
  exists l, trace w' = trace w ++ l /\
            runs (on_resume w) (target w) p final l r (target w').
Proof.
  induction p as [|[n o|e] p IH]; intros w r w' H; cbn [run_plan] in H.
  - inversion H; subst. split; [reflexivity|].
    exists []. rewrite app_nil_r. split; [reflexivity | constructor].
  - unfold CheckRetry, Check in H.
    destruct (retry_loop_perform o (Nat.pred n) w) as (j & Hj & Heq & Hlast).
    rewrite Heq in H. unfold perform in H.
    destruct (hd success (faults (after_attempts o j w))) eqn:Hhd;
      cbn [target on_resume after_attempts trace] in H.
    + apply IH in H. cbn [target on_resume trace] in H.
      destruct H as (Hrun & l & Htr & Hruns). split; [exact Hrun|].
      exists (attempts o j ++ ev_target o success (op_result o (target w)) :: l).
      split.
      * rewrite Htr. now rewrite <- !app_assoc.
      * now apply runs_op_ok.
    + inversion H; subst; cbn [target on_resume trace].
      split; [reflexivity|].
      exists (attempts o j ++ [ev_target o failure 0]). split.
      * now rewrite <- app_assoc.
      * apply runs_op_fail; [exact Hj | discriminate | discriminate].
    + inversion H; subst; cbn [target on_resume trace].
      split; [reflexivity|].
      exists (attempts o j ++ [ev_target o try_again 0]). split.
      * now rewrite <- app_assoc.
      * apply runs_op_fail; [exact Hj | discriminate | auto].
  - unfold log in H. apply IH in H. cbn [emit target on_resume trace] in H.
    destruct H as (Hrun & l & Htr & Hruns). split; [exact Hrun|].
    exists (e :: l). split.
    + rewrite Htr. now rewrite <- app_assoc.
    + now constructor.
Qed.

Lemma retry_loop_success {A} (c : Call A) m w v w1 :
  c w = (success, v, w1) -> retry_loop c m w = (success, v, w1).
Proof. intros H. destruct m; simpl; now rewrite H. Qed.

Lemma CheckRetry_all_succeed o n k w :
  all_succeed w ->
  CheckRetry (perform o) n k w =
  k (op_result o (target w))
    (mkWorld (op_effect (on_resume w) o (target w)) (on_resume w)
             (tl (faults w))
             (trace w ++ [ev_target o success (op_result o (target w))])).
Proof.
  intros H. unfold CheckRetry, Check.
  now rewrite (retry_loop_success _ _ _ _ _ (perform_all_succeed o w H)).
Qed.

Lemma Forall_tl {A} (P : A -> Prop) l : Forall P l -> Forall P (tl l).
Proof. destruct l; simpl; [auto | now inversion 1]. Qed.

Ltac all_succeed_tac :=
  unfold all_succeed in *; cbn [faults emit];
  repeat apply Forall_tl; assumption.

Ltac run_ok :=
  repeat (first
    [ rewrite CheckRetry_all_succeed by all_succeed_tac
    | progress unfold log
    | progress cbn [run_plan ret target on_resume faults trace emit] ]).

Lemma land_low_byte x : Z.land x 0xFF = x mod 2 ^ 8.
Proof. exact (Z.land_ones x 8 ltac:(lia)). Qed.

(** ** The semihosting round trip *)

(** C1: on a halt whose masked DFSR reason is BKPT, with the instruction at PC
    equal to 0xBEAB and R0 = 3, [handle_halt] reads DFSR, PC, the instruction
    word, R0 and R1, writes the low byte of R1 to the console, flushes, writes
    PC + 2 (a 32-bit sum) to PC, resumes, and returns success; these are all
    its actions, in this order, and R0 is left as it was. *)
Theorem handle_halt_write_char (w : World) :
  all_succeed w ->
  Z.land (mem (target w) SCB.DFSR) SCB.DFSR_reason_mask = SCB.DFSR_BKPT ->
  fetched_instr (target w) = 0xBEAB ->
  regs (target w) R0 = 0x3 ->
  let tg := target w in
  let pc := regs tg PC in
  let halted := set_reg PC (wrap32 (pc + 2)) tg in
  exists w',
    swdhost.handle_halt w = (success, tt, w') /\
    trace w' = trace w ++
      [ ev_target (op_read_word SCB.DFSR) success (mem tg SCB.DFSR);
        ev_target (op_read_register PC) success pc;
        ev_target (op_read_word (Z.land pc (Z.lnot 0x3))) success
                  (mem tg (Z.land pc (Z.lnot 0x3)));
        ev_target (op_read_register R0) success 0x3;
        ev_target (op_read_register R1) success (regs tg R1);
        ev_putchar (Z.land (regs tg R1) 0xFF);
        ev_fflush;
        ev_target (op_write_register PC (wrap32 (pc + 2))) success 0;
        ev_target op_resume success 0 ] /\
    target w' = on_resume w halted /\
    regs halted R0 = regs tg R0 /\
    (0 <= pc < 2 ^ 32 - 2 -> wrap32 (pc + 2) = pc + 2).
Proof.
  intros Hall Hreason Hinstr Hop tg pc halted.
  rewrite handle_halt_plan. unfold halt_plan.
  rewrite (proj2 (Z.eqb_eq _ _) Hreason), (proj2 (Z.eqb_eq _ _) Hinstr),
    (proj2 (Z.eqb_eq _ _) Hop).
  cbn [fst snd reads_of_breakpoint reads_of_request app].
  run_ok. eexists. split; [reflexivity|].
  cbn [trace target op_effect op_result]. fold tg. fold pc.
  repeat split.
  - rewrite <- !app_assoc. cbn [app]. rewrite land_low_byte.
    unfold tg in *. now rewrite Hop.
  - intros H. unfold wrap32. apply Z.mod_small. lia.
Qed.

Lemma handle_halt_write_char_witness :
  exists w',
    swdhost.handle_halt (quiet (halted_on_request 3) []) = (success, tt, w') /\
    trace w' =
      [ ev_target (op_read_word 0xE000ED30) success 2;
        ev_target (op_read_register PC) success 0x102;
        ev_target (op_read_word 0x100) success 0xBEAB0000;
        ev_target (op_read_register R0) success 3;
        ev_target (op_read_register R1) success 0x58;
        ev_putchar 0x58;
        ev_fflush;
        ev_target (op_write_register PC 0x104) success 0;
        ev_target op_resume success 0 ].
Proof.
  destruct (handle_halt_write_char (quiet (halted_on_request 3) []))
    as (w' & Hrun & Htrace & _);
    [constructor | reflexivity | reflexivity | reflexivity |].
  exists w'. split; [exact Hrun | exact Htrace].
Defined.

(** ** Error returns of [handle_halt] *)

(** C2: when every target transaction succeeds, [handle_halt] returns an
    error exactly when the masked DFSR reason is not BKPT, or the fetched
    instruction is not 0xBEAB, or R0 is not 3; and then it has neither
    written PC nor resumed the target (it has only read, and the target is as
    it was). *)
Theorem handle_halt_error_iff (w : World) (r : Error) (w' : World) :
  all_succeed w ->
  swdhost.handle_halt w = (r, tt, w') ->
  let tg := target w in
  (r <> success <->
     Z.land (mem tg SCB.DFSR) SCB.DFSR_reason_mask <> SCB.DFSR_BKPT \/
     fetched_instr tg <> 0xBEAB \/
     regs tg R0 <> 0x3) /\
  (r <> success ->
     target w' = tg /\
     exists l, trace w' = trace w ++ l /\
       (forall x e v, ~ In (ev_target (op_write_register PC x) e v) l) /\
       (forall e v, ~ In (ev_target op_resume e v) l) /\
       (forall o e v, In (ev_target o e v) l -> is_read o = true)).
Proof.
  intros Hall H tg. revert H. rewrite handle_halt_plan. unfold halt_plan.
  fold tg.
  destruct (Z.eqb_spec (Z.land (mem tg SCB.DFSR) SCB.DFSR_reason_mask)
                       SCB.DFSR_BKPT) as [E1|E1];
    [destruct (Z.eqb_spec (fetched_instr tg) 0xBEAB) as [E2|E2];
     [destruct (Z.eqb_spec (regs tg R0) 0x3) as [E3|E3]|]|];
    cbn [fst snd reads_of_breakpoint reads_of_request app];
    run_ok; intros H; inversion H; subst; clear H; unfold emit;
    cbn [trace target op_effect op_result];
    rewrite <- ?app_assoc; cbn [app].
  - split; [|congruence]. split; [congruence|]. intros [?|[?|?]]; congruence.
  - split; [split; [auto | discriminate]|]. intros _. split; [reflexivity|].
    eexists. split; [reflexivity|].
    repeat split; try (intros; simpl; intuition discriminate).
    intros o e v; simpl; intros Hin;
      repeat (destruct Hin as [Hin|Hin]; [inversion Hin; reflexivity|]);
      contradiction.
  - split; [split; [auto | discriminate]|]. intros _. split; [reflexivity|].
    eexists. split; [reflexivity|].
    repeat split; try (intros; simpl; intuition discriminate).
    intros o e v; simpl; intros Hin;
      repeat (destruct Hin as [Hin|Hin]; [inversion Hin; reflexivity|]);
      contradiction.
  - split; [split; [auto | discriminate]|]. intros _. split; [reflexivity|].
    eexists. split; [reflexivity|].
    repeat split; try (intros; simpl; intuition discriminate).
    intros o e v; simpl; intros Hin;
      repeat (destruct Hin as [Hin|Hin]; [inversion Hin; reflexivity|]);
      contradiction.
Qed.

Lemma handle_halt_error_iff_witness :
  failure <> success /\
  regs (halted_on_request 4) R0 <> 0x3 /\
  target (snd (swdhost.handle_halt (quiet (halted_on_request 4) []))) =
  halted_on_request 4.
Proof.
  destruct (handle_halt_error_iff (quiet (halted_on_request 4) []) failure
              (snd (swdhost.handle_halt (quiet (halted_on_request 4) []))))
    as [Hiff Herr]; [constructor | reflexivity |].
  split; [discriminate|]. split; [discriminate|].
  exact (proj1 (Herr ltac:(discriminate))).
Defined.

(** Without that assumption an error can follow the write of PC: when the
    resume itself fails, [handle_halt] returns its error with PC already
    advanced. *)
Example resume_failure_follows_pc_write :
  let w := quiet (halted_on_request 0x3) (repeat success 6 ++ [failure]) in
  fst (swdhost.handle_halt w) = (failure, tt) /\
  trace (snd (swdhost.handle_halt w)) =
    [ ev_target (op_read_word SCB.DFSR) success 0x2;
      ev_target (op_read_register PC) success 0x102;
      ev_target (op_read_word 0x100) success 0xBEAB0000;
      ev_target (op_read_register R0) success 0x3;
      ev_target (op_read_register R1) success 0x58;
      ev_putchar 0x58;
      ev_fflush;
      ev_target (op_write_register PC 0x104) success 0;
      ev_target op_resume failure 0 ].
Proof. vm_compute. split; reflexivity. Qed.

(** ** The instruction fetch *)

Lemma land_lnot_3 x : Z.land x (Z.lnot 0x3) = 4 * (x / 4).
Proof.
  change 0x3 with (Z.ones 2).
  rewrite <- Z.ldiff_land, Z.ldiff_ones_r by lia.
  rewrite Z.shiftl_mul_pow2, Z.shiftr_div_pow2 by lia.
  change (2 ^ 2) with 4. lia.
Qed.

Lemma extract_instr_bits pc instr_word i :
  0 <= i < 16 ->
  Z.testbit (swdhost.extract_instr pc instr_word) i =
  Z.testbit instr_word (if Z.land pc 2 =? 0 then i else i + 16).
Proof.
  intros Hi. unfold swdhost.extract_instr, wrap16.
  rewrite Z.mod_pow2_bits_low by lia.
  destruct (Z.land pc 2 =? 0); cbn [negb].
  - change 0xFFFF with (Z.ones 16). rewrite Z.land_ones by lia.
    now rewrite Z.mod_pow2_bits_low by lia.
  - rewrite Z.shiftr_spec by lia. reflexivity.
Qed.

(** Every event of a run was emitted by the plan or is an attempt of one of
    its accesses. *)
Lemma runs_events run tg p final l r tg' :
  runs run tg p final l r tg' ->
  forall ev, In ev l ->
    In (act_emit ev) p \/
    exists n o e v, ev = ev_target o e v /\ In (act_op n o) p.
Proof.
  induction 1 as [tg final|tg e p final l r tg' _ IH
                 |tg n o j p final l r tg' Hj _ IH
                 |tg n o j e p final Hj He Hlast]; intros ev Hin.
  - contradiction.
  - destruct Hin as [<-|Hin]; [left; now left|].
    destruct (IH ev Hin) as [Hemit|(n & o & e' & v & -> & Hop)].
    + left. now right.
    + right. exists n, o, e', v. split; [reflexivity | now right].
  - apply in_app_or in Hin. destruct Hin as [Hin|[<-|Hin]].
    + apply repeat_spec in Hin. subst ev. right.
      exists n, o, try_again, 0. split; [reflexivity | now left].
    + right. exists n, o, success, (op_result o tg).
      split; [reflexivity | now left].
    + destruct (IH ev Hin) as [Hemit|(n' & o' & e' & v & -> & Hop)].
      * left. now right.
      * right. exists n', o', e', v. split; [reflexivity | now right].
  - apply in_app_or in Hin. destruct Hin as [Hin|[<-|[]]].
    + apply repeat_spec in Hin. subst ev. right.
      exists n, o, try_again, 0. split; [reflexivity | now left].
    + right. exists n, o, e, 0. split; [reflexivity | now left].
Qed.

Lemma halt_plan_ops tg n o :
  In (act_op n o) (fst (halt_plan tg)) ->
  In o (halt_ops tg) /\ (n = 100%nat \/ o = op_resume /\ n = 1%nat).
Proof.
  unfold halt_plan, halt_ops.
  destruct (Z.land (mem tg SCB.DFSR) SCB.DFSR_reason_mask =? SCB.DFSR_BKPT);
    [destruct (fetched_instr tg =? 0xBEAB);
     [destruct (regs tg R0 =? 0x3)|]|];
    cbn [fst reads_of_breakpoint reads_of_request app In];
    intros H;
    repeat (destruct H as [H|H];
            [try discriminate H; inversion H; subst; simpl; tauto|]);
    contradiction.
Qed.

Lemma halt_plan_emits tg o e v :
  ~ In (act_emit (ev_target o e v)) (fst (halt_plan tg)).
Proof.
  unfold halt_plan.
  destruct (Z.land (mem tg SCB.DFSR) SCB.DFSR_reason_mask =? SCB.DFSR_BKPT);
    [destruct (fetched_instr tg =? 0xBEAB);
     [destruct (regs tg R0 =? 0x3)|]|];
    cbn [fst reads_of_breakpoint reads_of_request app In];
    intros H; repeat (destruct H as [H|H]; [discriminate H|]); contradiction.
Qed.

(** Whatever the transactions meet, [handle_halt] attempts only the seven
    accesses of [halt_ops]. *)
Lemma handle_halt_events w r w' :
  swdhost.handle_halt w = (r, tt, w') ->
  exists l, trace w' = trace w ++ l /\
    forall o e v, In (ev_target o e v) l -> In o (halt_ops (target w)).
Proof.
  rewrite handle_halt_plan. intros H.
  apply run_plan_runs in H. destruct H as (_ & l & Htr & Hruns).
  exists l. split; [exact Htr|]. intros o e v Hin.
  destruct (runs_events _ _ _ _ _ _ _ Hruns _ Hin)
    as [Hemit|(n & o' & e' & v' & Heq & Hop)].
  - now apply halt_plan_emits in Hemit.
  - inversion Heq; subst. now apply halt_plan_ops in Hop.
Qed.

(** C3: [handle_halt] fetches the instruction by a word read at PC & ~0x3,
    the 4-byte-aligned word holding PC: whatever the transactions meet, its
    only memory accesses are word reads, of DFSR and of that address, and
    when they all succeed after a BKPT halt there is exactly one of each.
    The halfword it compares with 0xBEAB is bits [31:16] of the word read
    when PC & 2 is set and bits [15:0] otherwise. *)
Theorem handle_halt_instruction_fetch (w : World) (r : Error) (w' : World) :
  swdhost.handle_halt w = (r, tt, w') ->
  let tg := target w in
  let pc := regs tg PC in
  let base := Z.land pc (Z.lnot 0x3) in
  let instr_word := mem tg base in
  base mod 4 = 0 /\
  base <= pc < base + 4 /\
  (forall i, 0 <= i < 16 ->
     Z.testbit (fetched_instr tg) i =
     Z.testbit instr_word (if Z.land pc 2 =? 0 then i else i + 16)) /\
  0 <= fetched_instr tg < 2 ^ 16 /\
  exists l, trace w' = trace w ++ l /\
    (forall ev, In ev l -> is_memory_access ev = true ->
       exists e v, ev = ev_target (op_read_word SCB.DFSR) e v \/
                   ev = ev_target (op_read_word base) e v) /\
    (all_succeed w ->
     Z.land (mem tg SCB.DFSR) SCB.DFSR_reason_mask = SCB.DFSR_BKPT ->
       filter is_memory_access l =
         [ ev_target (op_read_word SCB.DFSR) success (mem tg SCB.DFSR);
           ev_target (op_read_word base) success instr_word ] /\
       (fetched_instr tg <> 0xBEAB <->
        In (ev_warning_unexpected_breakpoint (fetched_instr tg) pc) l) /\
       (fetched_instr tg = 0xBEAB <->
        In (ev_target (op_read_register R0) success (regs tg R0)) l)).
Proof.
  intros H tg pc base instr_word.
  assert (Hbase : base = 4 * (pc / 4)) by apply land_lnot_3.
  split; [rewrite Hbase, Z.mul_comm; apply Z.mod_mul; lia|].
  split; [pose proof (Z.div_mod pc 4); pose proof (Z.mod_pos_bound pc 4); lia|].
  split; [intros i Hi; now apply extract_instr_bits|].
  split; [unfold fetched_instr, swdhost.extract_instr, wrap16;
          apply Z.mod_pos_bound; lia|].
  destruct (handle_halt_events w r w' H) as (l & Htr & Hops).
  exists l. split; [exact Htr|]. split.
  - intros [o e v| | | | | | | | | | | | |] Hin Hmem; try discriminate Hmem.
    specialize (Hops o e v Hin). unfold halt_ops in Hops. simpl in Hops.
    exists e, v.
    repeat (destruct Hops as [<-|Hops];
            [first [discriminate Hmem | now left | now right]|]).
    contradiction.
  - intros Hall Hreason. revert H Htr. clear Hops.
    rewrite handle_halt_plan. unfold halt_plan. fold tg.
    rewrite (proj2 (Z.eqb_eq _ _) Hreason).
    destruct (Z.eqb_spec (fetched_instr tg) 0xBEAB) as [E2|E2];
      [destruct (Z.eqb_spec (regs tg R0) 0x3) as [E3|E3]|];
      cbn [fst snd reads_of_breakpoint reads_of_request app];
      run_ok; intros H; inversion H; subst; clear H; unfold emit;
      cbn [trace target op_effect op_result];
      rewrite <- ?app_assoc; cbn [app];
      intros Htr; apply app_inv_head in Htr; subst l;
      (split; [reflexivity|]);
      (split; (split; [intros Hx|intros Hin])); try congruence;
      try (simpl; tauto);
      try (simpl in Hin;
           repeat (destruct Hin as [Hin|Hin]; [discriminate Hin|]);
           contradiction).
Qed.

(** ** Writes to the program counter *)

(** When a run got as far as an access that is not a read, every read the
    plan places before it has succeeded, with the value the target holds. *)
Lemma runs_reads_before run final post o e v :
  is_read o = false ->
  forall pre tg l r tg',
  Forall only_reads pre ->
  runs run tg (pre ++ post) final l r tg' ->
  In (ev_target o e v) l ->
  forall n1 o1, In (act_op n1 o1) pre ->
    In (ev_target o1 success (op_result o1 tg)) l.
Proof.
  intros Ho. induction pre as [|a pre IH]; intros tg l r tg' Hpre Hruns Hin n1 o1 H1.
  - contradiction.
  - inversion Hpre as [|? ? Ha Hpre']; subst.
    cbn [app] in Hruns.
    inversion Hruns as [|? ? ? ? ? ? ? Hrest|? ? ? ? ? ? ? ? ? Hj Hrest
                        |? ? ? ? ? ? ? Hj He Hlast]; subst.
    + destruct H1 as [H1|H1]; [discriminate H1|].
      destruct Hin as [Hin|Hin]; [now apply Ha in Hin|].
      right. eapply IH; eauto.
    + cbn [only_reads] in Ha. rewrite (op_effect_read _ _ _ Ha) in Hrest.
      apply in_app_or in Hin. destruct Hin as [Hin|[Hin|Hin]].
      * apply repeat_spec in Hin. inversion Hin; subst. congruence.
      * inversion Hin; subst. congruence.
      * apply in_or_app. right.
        destruct H1 as [H1|H1]; [inversion H1; subst; now left|].
        right. eapply IH; eauto.
    + cbn [only_reads] in Ha.
      apply in_app_or in Hin. destruct Hin as [Hin|[Hin|[]]].
      * apply repeat_spec in Hin. inversion Hin; subst. congruence.
      * inversion Hin; subst. congruence.
Qed.

Lemma even_wrap32 x : Z.even (wrap32 x) = Z.even x.
Proof.
  unfold wrap32. rewrite <- !Z.negb_odd, <- !Z.bit0_odd.
  now rewrite Z.mod_pow2_bits_low by lia.
Qed.

(** Whatever the transactions meet, the only register [handle_halt] writes
    is PC, and the only value it writes there is pc + 2 (a 32-bit sum), where
    pc is the value held by PC at the halt, which it has read successfully
    before; so an even pc stays even, and the written value is never
    pc + 1. *)
Lemma handle_halt_pc_write (w : World) (r : Error) (w' : World) :
  swdhost.handle_halt w = (r, tt, w') ->
  let pc := regs (target w) PC in
  exists l, trace w' = trace w ++ l /\
    forall reg x e v, In (ev_target (op_write_register reg x) e v) l ->
      reg = PC /\
      x = wrap32 (pc + 2) /\
      In (ev_target (op_read_register PC) success pc) l /\
      (Z.even pc = true -> Z.even x = true) /\
      x <> wrap32 (pc + 1) /\ x <> pc + 1.
Proof.
  intros H pc. rewrite handle_halt_plan in H.
  apply run_plan_runs in H. destruct H as (_ & l & Htr & Hruns).
  exists l. split; [exact Htr|]. intros reg x e v Hin.
  assert (Hpar : Z.even (wrap32 (pc + 2)) = Z.even pc).
  { rewrite even_wrap32. rewrite Z.even_add. destruct (Z.even pc); reflexivity. }
  assert (Hpar1 : Z.even (wrap32 (pc + 1)) = negb (Z.even pc)).
  { rewrite even_wrap32. rewrite Z.even_add. destruct (Z.even pc); reflexivity. }
  assert (Hpar2 : Z.even (pc + 1) = negb (Z.even pc)).
  { rewrite Z.even_add. destruct (Z.even pc); reflexivity. }
  destruct (runs_events _ _ _ _ _ _ _ Hruns _ Hin)
    as [Hemit|(n & o & e' & v' & Heq & Hop)];
    [now apply halt_plan_emits in Hemit|].
  inversion Heq; subst o e' v'. clear Heq.
  revert Hruns Hop. unfold halt_plan. fold pc.
  destruct (Z.land (mem (target w) SCB.DFSR) SCB.DFSR_reason_mask
            =? SCB.DFSR_BKPT);
    [destruct (fetched_instr (target w) =? 0xBEAB);
     [destruct (regs (target w) R0 =? 0x3)|]|];
    cbn [fst snd reads_of_breakpoint reads_of_request app In];
    intros Hruns Hop;
    repeat (destruct Hop as [Hop|Hop]; [try discriminate Hop|]);
    try contradiction.
  inversion Hop; subst reg x. clear Hop.
  split; [reflexivity|]. split; [reflexivity|]. split.
  - change (ev_target (op_read_register PC) success pc)
      with (ev_target (op_read_register PC) success
                      (op_result (op_read_register PC) (target w))).
    eapply (runs_reads_before _ _
              [act_op 100 (op_write_register PC (wrap32 (pc + 2)));
               act_op 1 op_resume]
              (op_write_register PC (wrap32 (pc + 2))) e v eq_refl
              [act_op 100 (op_read_word SCB.DFSR);
               act_op 100 (op_read_register PC);
               act_op 100 (op_read_word (Z.land (regs (target w) PC) (Z.lnot 0x3)));
               act_op 100 (op_read_register R0);
               act_op 100 (op_read_register R1);
               act_emit (ev_putchar (regs (target w) R1 mod 2 ^ 8));
               act_emit ev_fflush]).
    + repeat constructor; discriminate.
    + exact Hruns.
    + exact Hin.
    + right. left. reflexivity.
  - split; [congruence|]. split; intros Heq.
    + rewrite Heq in Hpar. rewrite Hpar1 in Hpar. now destruct (Z.even pc).
    + rewrite Heq in Hpar. rewrite Hpar2 in Hpar. now destruct (Z.even pc).
Qed.

(** ** The retry bound *)

Lemma Check_ret (c : Call unit) w : Check c (fun _ => ret success tt) w = c w.
Proof. unfold Check, ret. destruct (c w) as [[[] []] w1]; reflexivity. Qed.

Lemma poll_is_plan w :
  swdhost.poll tt w =
  run_plan (fst (poll_plan (target w))) (snd (poll_plan (target w))) w.
Proof.
  unfold swdhost.poll, poll_plan, read_word.
  destruct (negb (Z.land (mem (target w) DCB.DHCSR) DCB.DHCSR_S_HALT =? 0))
    eqn:Hhalt; cbn [fst snd run_plan];
    (apply CheckRetry_read; [reflexivity|]);
    intros w1 H1; cbn [op_result]; rewrite Hhalt; [|reflexivity].
  now rewrite Check_ret, handle_halt_plan, H1.
Qed.

Lemma tl_skipn {A} (l : list A) j : tl (skipn j l) = skipn (S j) l.
Proof.
  revert l. induction j as [|j IH]; intros [|a l]; try reflexivity.
  cbn [skipn]. rewrite IH. now destruct l.
Qed.

(** The helper attempts its call at most [n] times, and reports the error of
    the last attempt when that is no success. *)
Lemma CheckRetry_cases o n k w :
  (1 <= n)%nat ->
  exists j e v w1,
    (j < n)%nat /\
    trace w1 = trace w ++ attempts o j ++ [ev_target o e v] /\
    faults w1 = skipn (S j) (faults w) /\
    (e = try_again -> S j = n) /\
    CheckRetry (perform o) n k w =
    match e with success => k v w1 | _ => (e, tt, w1) end /\
    on_resume w1 = on_resume w /\
    target w1 =
    match e with
    | success => op_effect (on_resume w) o (target w)
    | _ => target w
    end /\
    (e = success -> v = op_result o (target w)).
Proof.
  intros Hn. unfold CheckRetry, Check.
  destruct (retry_loop_perform o (Nat.pred n) w) as (j & Hj & -> & Hlast).
  unfold perform.
  destruct (hd success (faults (after_attempts o j w))) eqn:Hhd;
    cbn [after_attempts target on_resume faults trace] in *.
  - exists j, success, (op_result o (target w)). eexists.
    repeat split; cbn [trace faults];
      [lia | now rewrite <- app_assoc | apply tl_skipn | discriminate].
  - exists j, failure, 0. eexists.
    repeat split; cbn [trace faults];
      [lia | now rewrite <- app_assoc | apply tl_skipn | discriminate
      | discriminate].
  - exists j, try_again, 0. eexists.
    repeat split; cbn [trace faults];
      [lia | now rewrite <- app_assoc | apply tl_skipn
      | intros _; specialize (Hlast eq_refl); lia | discriminate].
Qed.

(** C8: one iteration of the polling loop is a plan whose target accesses,
    apart from the final resume, are the DHCSR poll, the DFSR read, the PC,
    R0 and R1 reads, the instruction-word read and the PC write-back, each
    under the retry helper with bound 100; so whatever the transactions meet,
    each is attempted at most 100 times, and the error of the last attempt is
    returned. *)
Theorem polling_accesses_retry_100 (w : World) :
  let tg := target w in
  let plan := poll_plan tg in
  swdhost.poll tt w = run_plan (fst plan) (snd plan) w /\
  (forall n o, In (act_op n o) (fst plan) -> o <> op_resume ->
     n = 100%nat /\ In o (op_read_word DCB.DHCSR :: firstn 6 (halt_ops tg))) /\
  (Z.land (mem tg DCB.DHCSR) DCB.DHCSR_S_HALT <> 0 ->
   Z.land (mem tg SCB.DFSR) SCB.DFSR_reason_mask = SCB.DFSR_BKPT ->
   fetched_instr tg = 0xBEAB ->
   regs tg R0 = 0x3 ->
   fst plan =
     [ act_op 100 (op_read_word DCB.DHCSR);
       act_op 100 (op_read_word SCB.DFSR);
       act_op 100 (op_read_register PC);
       act_op 100 (op_read_word (Z.land (regs tg PC) (Z.lnot 0x3)));
       act_op 100 (op_read_register R0);
       act_op 100 (op_read_register R1);
       act_emit (ev_putchar (regs tg R1 mod 2 ^ 8));
       act_emit ev_fflush;
       act_op 100 (op_write_register PC (wrap32 (regs tg PC + 2)));
       act_op 1 op_resume ]) /\
  (forall r w', swdhost.poll tt w = (r, tt, w') ->
     exists l, trace w' = trace w ++ l /\
       runs (on_resume w) tg (fst plan) (snd plan) l r (target w')) /\
  (forall o k, exists j e v w1,
     (j < 100)%nat /\
     trace w1 = trace w ++ attempts o j ++ [ev_target o e v] /\
     faults w1 = skipn (S j) (faults w) /\
     (e = try_again -> S j = 100%nat) /\
     CheckRetry (perform o) 100 k w =
     match e with success => k v w1 | _ => (e, tt, w1) end).
Proof.
  intros tg plan. split; [apply poll_is_plan|]. split; [|split; [|split]].
  - intros n o Hin Ho. unfold plan, poll_plan in Hin.
    destruct (negb (Z.land (mem tg DCB.DHCSR) DCB.DHCSR_S_HALT =? 0));
      cbn [fst In] in Hin.
    + destruct Hin as [Hin|Hin]; [inversion Hin; subst; split; [reflexivity | now left]|].
      apply halt_plan_ops in Hin. destruct Hin as [Hin [Hn|[Hn _]]]; [|congruence].
      split; [exact Hn|]. right. unfold halt_ops in *. cbn [firstn].
      cbn [In] in *. intuition congruence.
    + destruct Hin as [Hin|[]]. inversion Hin; subst. split; [reflexivity | now left].
  - intros Hhalt Hreason Hinstr Hop. unfold plan, poll_plan, halt_plan.
    fold tg.
    rewrite (proj2 (Z.eqb_neq _ _) Hhalt), (proj2 (Z.eqb_eq _ _) Hreason),
      (proj2 (Z.eqb_eq _ _) Hinstr), (proj2 (Z.eqb_eq _ _) Hop).
    reflexivity.
  - intros r w' H. rewrite poll_is_plan in H.
    apply run_plan_runs in H. exact (proj2 H).
  - intros o k.
    destruct (CheckRetry_cases o 100 k w ltac:(lia))
      as (j & e & v & w1 & Hj & Htr & Hf & Hlast & Heq & _).
    exists j, e, v, w1. auto.
Qed.

(** The bound is met: a hundred transient failures of the DFSR read end
    [handle_halt] with that error after exactly a hundred attempts, and
    ninety-nine do not. *)
Example dfsr_read_gives_up_after_100 :
  let w := quiet (halted_on_request 3) (repeat try_again 100 ++ [failure]) in
  fst (swdhost.handle_halt w) = (try_again, tt) /\
  trace (snd (swdhost.handle_halt w)) =
    attempts (op_read_word SCB.DFSR) 100 /\
  faults (snd (swdhost.handle_halt w)) = [failure].
Proof. vm_compute. repeat split. Qed.

Example dfsr_read_survives_99 :
  let w := quiet (halted_on_request 3) (repeat try_again 99) in
  fst (swdhost.handle_halt w) = (success, tt) /\
  List.length (trace (snd (swdhost.handle_halt w))) = 108%nat.
Proof. vm_compute. repeat split. Qed.

(** ** The polling loop *)

Lemma observe_all_app ph l1 l2 :
  observe_all ph (l1 ++ l2) =
  match observe_all ph l1 with
  | Some ph' => observe_all ph' l2
  | None => None
  end.
Proof.
  revert ph. induction l1 as [|ev l1 IH]; intros ph; cbn [app observe_all].
  - reflexivity.
  - destruct (observe ph ev); [apply IH | reflexivity].
Qed.

Lemma observe_attempts_polling j :
  observe_all polling (attempts (op_read_word DCB.DHCSR) j) = Some polling.
Proof. induction j as [|j IH]; [reflexivity | exact IH]. Qed.

Lemma observe_attempts_handling o j :
  observe_all handling (attempts o j) = Some handling.
Proof.
  induction j as [|j IH]; [reflexivity|].
  cbn [attempts repeat observe_all]. destruct o; exact IH.
Qed.

Lemma observe_handling_no_resume o e v :
  o <> op_resume -> observe handling (ev_target o e v) = Some handling.
Proof. destruct o; try reflexivity. congruence. Qed.

Lemma observe_handling_emit ev :
  (forall r v, ev <> ev_target op_resume r v) ->
  observe handling ev = Some handling.
Proof.
  intros H. destruct ev as [o e v| | | | | | | | | | | | |]; try reflexivity.
  destruct o; try reflexivity. destruct e; try reflexivity.
  now destruct (H success v).
Qed.

Lemma runs_success_final run tg p final l r tg' :
  runs run tg p final l r tg' -> r = success -> final = success.
Proof. induction 1; auto. congruence. Qed.

(** A run without a resume stays in [handling]. *)
Lemma runs_no_resume run tg p final l r tg' :
  runs run tg p final l r tg' ->
  Forall no_resume p ->
  observe_all handling l = Some handling.
Proof.
  induction 1 as [tg final|tg e p final l r tg' _ IH
                 |tg n o j p final l r tg' Hj _ IH
                 |tg n o j e p final Hj He Hlast]; intros Hp.
  - reflexivity.
  - inversion Hp as [|? ? Ha Hp']; subst. cbn [observe_all].
    rewrite (observe_handling_emit _ Ha). auto.
  - inversion Hp as [|? ? Ha Hp']; subst.
    rewrite observe_all_app, observe_attempts_handling. cbn [observe_all].
    rewrite (observe_handling_no_resume _ _ _ Ha). auto.
  - inversion Hp as [|? ? Ha Hp']; subst.
    rewrite observe_all_app, observe_attempts_handling. cbn [observe_all].
    now rewrite (observe_handling_no_resume _ _ _ Ha).
Qed.

(** A run of accesses that are not resumes, closed by a resume, is accepted
    from [handling], and is back to [polling] when it succeeded. *)
Lemma runs_then_resume run n final : forall p tg l r tg',
  Forall no_resume p ->
  runs run tg (p ++ [act_op n op_resume]) final l r tg' ->
  exists ph, observe_all handling l = Some ph /\ (r = success -> ph = polling).
Proof.
  induction p as [|a p IH]; intros tg l r tg' Hp Hruns; cbn [app] in Hruns.
  - inversion Hruns as [| |? ? ? ? ? ? ? ? ? Hj Hrest|? ? ? ? ? ? ? Hj He Hlast];
      subst.
    + inversion Hrest; subst. exists polling.
      rewrite observe_all_app, observe_attempts_handling. split; reflexivity.
    + exists handling.
      rewrite observe_all_app, observe_attempts_handling.
      split; [|congruence]. cbn [observe_all observe]. now destruct r.
  - inversion Hp as [|? ? Ha Hp']; subst.
    inversion Hruns as [|? ? ? ? ? ? ? Hrest|? ? ? ? ? ? ? ? ? Hj Hrest
                        |? ? ? ? ? ? ? Hj He Hlast]; subst.
    + cbn [observe_all]. rewrite (observe_handling_emit _ Ha). eauto.
    + rewrite observe_all_app, observe_attempts_handling. cbn [observe_all].
      rewrite (observe_handling_no_resume _ _ _ Ha). eauto.
    + exists handling.
      rewrite observe_all_app, observe_attempts_handling. cbn [observe_all].
      rewrite (observe_handling_no_resume _ _ _ Ha). split; [reflexivity | congruence].
Qed.

Lemma handle_halt_observed w r w' :
  swdhost.handle_halt w = (r, tt, w') ->
  exists l ph, trace w' = trace w ++ l /\
    observe_all handling l = Some ph /\ (r = success -> ph = polling).
Proof.
  rewrite handle_halt_plan. intros H.
  apply run_plan_runs in H. destruct H as (_ & l & Htr & Hruns).
  exists l. revert Hruns. unfold halt_plan.
  destruct (Z.land (mem (target w) SCB.DFSR) SCB.DFSR_reason_mask
            =? SCB.DFSR_BKPT);
    [destruct (fetched_instr (target w) =? 0xBEAB);
     [destruct (regs (target w) R0 =? 0x3)|]|];
    cbn [fst snd reads_of_breakpoint reads_of_request app]; intros Hruns.
  - change [act_op 100 (op_read_word SCB.DFSR);
            act_op 100 (op_read_register PC);
            act_op 100 (op_read_word (Z.land (regs (target w) PC) (Z.lnot 3)));
            act_op 100 (op_read_register R0);
            act_op 100 (op_read_register R1);
            act_emit (ev_putchar (regs (target w) R1 mod 2 ^ 8));
            act_emit ev_fflush;
            act_op 100 (op_write_register PC (wrap32 (regs (target w) PC + 2)));
            act_op 1 op_resume]
      with ([act_op 100 (op_read_word SCB.DFSR);
             act_op 100 (op_read_register PC);
             act_op 100 (op_read_word (Z.land (regs (target w) PC) (Z.lnot 3)));
             act_op 100 (op_read_register R0);
             act_op 100 (op_read_register R1);
             act_emit (ev_putchar (regs (target w) R1 mod 2 ^ 8));
             act_emit ev_fflush;
             act_op 100 (op_write_register PC (wrap32 (regs (target w) PC + 2)))]
            ++ [act_op 1 op_resume]) in Hruns.
    apply runs_then_resume in Hruns;
      [|repeat constructor; cbn [no_resume]; discriminate].
    destruct Hruns as (ph & Hobs & Hph). exists ph. auto.
  - exists handling. split; [exact Htr|]. split.
    + eapply runs_no_resume; [exact Hruns|].
      repeat constructor; cbn [no_resume]; discriminate.
    + intros Hr. now apply (runs_success_final _ _ _ _ _ _ _ Hruns) in Hr.
  - exists handling. split; [exact Htr|]. split.
    + eapply runs_no_resume; [exact Hruns|].
      repeat constructor; cbn [no_resume]; discriminate.
    + intros Hr. now apply (runs_success_final _ _ _ _ _ _ _ Hruns) in Hr.
  - exists handling. split; [exact Htr|]. split.
    + eapply runs_no_resume; [exact Hruns|].
      repeat constructor; cbn [no_resume]; discriminate.
    + intros Hr. now apply (runs_success_final _ _ _ _ _ _ _ Hruns) in Hr.
Qed.

(** One iteration of the loop: the DHCSR poll fails, or finds the core
    running, or finds it halted and hands over to [handle_halt]. *)
Lemma poll_cases w r w' :
  swdhost.poll tt w = (r, tt, w') ->
  exists j e dhcsr w1,
    (j < 100)%nat /\
    trace w1 =
      trace w ++ attempts (op_read_word DCB.DHCSR) j ++
      [ev_target (op_read_word DCB.DHCSR) e dhcsr] /\
    target w1 = target w /\
    (e = success -> dhcsr = mem (target w) DCB.DHCSR) /\
    (e = try_again -> j = 99%nat) /\
    ((e <> success /\ r = e /\ w' = w1) \/
     (e = success /\ Z.land dhcsr DCB.DHCSR_S_HALT = 0 /\
      r = success /\ w' = w1) \/
     (e = success /\ Z.land dhcsr DCB.DHCSR_S_HALT <> 0 /\
      swdhost.handle_halt w1 = (r, tt, w'))).
Proof.
  unfold swdhost.poll, read_word. intros H.
  match type of H with CheckRetry _ _ ?k _ = _ =>
    destruct (CheckRetry_cases (op_read_word DCB.DHCSR) 100 k w ltac:(lia))
      as (j & e & v & w1 & Hj & Htr & _ & Hlast & Heq & _ & Htg & Hv)
  end.
  rewrite Heq in H. exists j, e, v, w1.
  split; [exact Hj|]. split; [exact Htr|].
  split; [destruct e; exact Htg|]. split; [exact Hv|].
  split; [intros He; specialize (Hlast He); lia|].
  destruct e.
  - destruct (Z.eqb_spec (Z.land v DCB.DHCSR_S_HALT) 0) as [E|E];
      cbn [negb] in H.
    + right. left. inversion H; subst. auto.
    + right. right. rewrite Check_ret in H. auto.
  - left. inversion H; subst. repeat split. discriminate.
  - left. inversion H; subst. repeat split. discriminate.
Qed.

Lemma observe_dhcsr_read j e v :
  observe_all polling
    (attempts (op_read_word DCB.DHCSR) j ++
     [ev_target (op_read_word DCB.DHCSR) e v]) =
  Some (match e with
        | success =>
            if negb (Z.land v DCB.DHCSR_S_HALT =? 0) then handling else polling
        | _ => polling
        end).
Proof.
  rewrite observe_all_app, observe_attempts_polling.
  cbn [observe_all observe]. rewrite Z.eqb_refl.
  destruct e; try reflexivity.
  now destruct (negb (Z.land v DCB.DHCSR_S_HALT =? 0)).
Qed.

Lemma poll_observed w r w' :
  swdhost.poll tt w = (r, tt, w') ->
  exists l ph, trace w' = trace w ++ l /\
    observe_all polling l = Some ph /\ (r = success -> ph = polling).
Proof.
  intros H. apply poll_cases in H.
  destruct H as (j & e & v & w1 & _ & Htr & _ & _ & _ & Hcase).
  destruct Hcase as [(He & -> & ->)|[(-> & Hv & -> & ->)|(-> & Hv & Hh)]].
  - eexists. exists polling. split; [exact Htr|].
    rewrite observe_dhcsr_read. split; [now destruct e | congruence].
  - eexists. exists polling. split; [exact Htr|].
    rewrite observe_dhcsr_read.
    now rewrite (proj2 (Z.eqb_eq _ _) Hv).
  - apply handle_halt_observed in Hh.
    destruct Hh as (l & ph & Htr' & Hobs & Hph).
    exists ((attempts (op_read_word DCB.DHCSR) j ++
             [ev_target (op_read_word DCB.DHCSR) success v]) ++ l), ph.
    split; [rewrite Htr', Htr; now rewrite <- !app_assoc|].
    rewrite observe_all_app, observe_dhcsr_read.
    rewrite (proj2 (Z.eqb_neq _ _) Hv). cbn [negb]. auto.
Qed.

Lemma polling_loop_observed fuel : forall w ex w',
  swdhost.polling_loop fuel w = (ex, w') ->
  exists l ph, trace w' = trace w ++ l /\ observe_all polling l = Some ph.
Proof.
  unfold swdhost.polling_loop.
  induction fuel as [|fuel IH]; intros w ex w' H; cbn [loop] in H.
  - inversion H; subst. exists [], polling. now rewrite app_nil_r.
  - destruct (swdhost.poll tt w) as [[r []] w1] eqn:Hpoll.
    apply poll_observed in Hpoll.
    destruct Hpoll as (l & ph & Htr & Hobs & Hph).
    destruct r.
    + apply IH in H. destruct H as (l2 & ph2 & Htr2 & Hobs2).
      exists (l ++ l2), ph2. split; [rewrite Htr2, Htr; now rewrite app_assoc|].
      rewrite observe_all_app, Hobs, (Hph eq_refl). exact Hobs2.
    + inversion H; subst. exists l, ph. auto.
    + inversion H; subst. exists l, ph. auto.
Qed.

(** C5: in the outer loop, as long as no read of DHCSR has returned S_HALT
    set (and again after each successful resume), the only thing the loop
    does to the target is read DHCSR; everything [handle_halt] does comes
    after a successful DHCSR read that returned S_HALT set.  An iteration
    that finds S_HALT clear only reads DHCSR and leaves the target as it
    is. *)
Theorem handle_halt_only_when_halted :
  (forall fuel w ex w',
     swdhost.polling_loop fuel w = (ex, w') ->
     exists l, trace w' = trace w ++ l /\ observe_all polling l <> None) /\
  (forall w r w',
     swdhost.poll tt w = (r, tt, w') ->
     Z.land (mem (target w) DCB.DHCSR) DCB.DHCSR_S_HALT = 0 ->
     target w' = target w /\
     exists l, trace w' = trace w ++ l /\ Forall is_dhcsr_read l).
Proof.
  split.
  - intros fuel w ex w' H. apply polling_loop_observed in H.
    destruct H as (l & ph & Htr & Hobs). exists l. split; [exact Htr|].
    congruence.
  - intros w r w' H Hrun. apply poll_cases in H.
    destruct H as (j & e & v & w1 & _ & Htr & Htg & Hv & _ & Hcase).
    assert (Hreads : Forall is_dhcsr_read
                       (attempts (op_read_word DCB.DHCSR) j ++
                        [ev_target (op_read_word DCB.DHCSR) e v])).
    { apply Forall_app. split.
      - apply Forall_forall. intros ev Hin. apply repeat_spec in Hin.
        subst ev. now exists try_again, 0.
      - constructor; [now exists e, v | constructor]. }
    destruct Hcase as [(He & -> & ->)|[(-> & _ & -> & ->)|(-> & Hset & _)]].
    + split; [exact Htg|]. eauto.
    + split; [exact Htg|]. eauto.
    + rewrite (Hv eq_refl) in Hset. contradiction.
Qed.

Lemma handle_halt_only_when_halted_witness :
  exists l,
    trace (snd (swdhost.polling_loop 3 writec_world)) =
    trace writec_world ++ l /\
    observe_all polling l <> None.
Proof.
  apply (proj1 handle_halt_only_when_halted 3%nat writec_world
           (fst (swdhost.polling_loop 3 writec_world))
           (snd (swdhost.polling_loop 3 writec_world))).
  apply surjective_pairing.
Defined.

(** ** The end of the session *)

Lemma polling_loop_never_finishes fuel : forall w w',
  swdhost.polling_loop fuel w <> (loop_finished, w').
Proof.
  unfold swdhost.polling_loop.
  induction fuel as [|fuel IH]; intros w w'; cbn [loop]; [discriminate|].
  destruct (swdhost.poll tt w) as [[[] u] w1]; [apply IH | discriminate..].
Qed.

Lemma polling_loop_returns fuel : forall w e w',
  swdhost.polling_loop fuel w = (loop_returned e, w') ->
  e <> success /\
  exists w0 j e0 dhcsr w1,
    (j < 100)%nat /\
    trace w1 =
      trace w0 ++ attempts (op_read_word DCB.DHCSR) j ++
      [ev_target (op_read_word DCB.DHCSR) e0 dhcsr] /\
    (e0 = try_again -> j = 99%nat) /\
    ((e0 <> success /\ e = e0 /\ w' = w1) \/
     (e0 = success /\ Z.land dhcsr DCB.DHCSR_S_HALT <> 0 /\
      swdhost.handle_halt w1 = (e, tt, w'))).
Proof.
  unfold swdhost.polling_loop.
  induction fuel as [|fuel IH]; intros w e w' H; cbn [loop] in H;
    [discriminate|].
  destruct (swdhost.poll tt w) as [[r []] w1] eqn:Hpoll.
  assert (Hexit : r <> success -> e = r /\ w' = w1).
  { destruct r; [congruence | | ]; intros _; now inversion H. }
  destruct r; [now apply IH in H | |];
    destruct (Hexit ltac:(discriminate)) as [-> ->];
    (split; [discriminate|]);
    apply poll_cases in Hpoll;
    destruct Hpoll as (j & e0 & v & w0 & Hj & Htr & _ & _ & Hlast & Hcase);
    exists w, j, e0, v, w0;
    (split; [exact Hj|]); (split; [exact Htr|]); (split; [exact Hlast|]);
    destruct Hcase as [Hc|[(_ & _ & Hc & _)|(He0 & Hv & Hh)]];
    try discriminate Hc; auto.
Qed.

Lemma CheckThen_never_succeeds {A} (c : Call A) (k : Run) :
  (forall w r w', k w = (Some r, w') -> r <> success) ->
  forall w r w', CheckThen c k w = (Some r, w') -> r <> success.
Proof.
  intros Hk w r w'. unfold CheckThen.
  destruct (c w) as [[[] a] w1]; [apply Hk | | ]; intros H; inversion H;
    discriminate.
Qed.

Lemma host_main_returns_error fuel w r w' :
  swdhost.host_main fuel w = (Some r, w') -> r <> success.
Proof.
  revert w r w'. unfold swdhost.host_main, LogThen.
  repeat (apply CheckThen_never_succeeds || intro).
  match goal with H : _ = (Some _, _) |- _ => rename H into Hrun end.
  match type of Hrun with context [swdhost.polling_loop ?f ?x] =>
    destruct (swdhost.polling_loop f x) as [[|e|] w1] eqn:Hloop
  end.
  - now apply polling_loop_never_finishes in Hloop.
  - apply polling_loop_returns in Hloop. inversion Hrun; subst. tauto.
  - discriminate Hrun.
Qed.

Lemma handle_halt_serves_only_write_char w w' :
  swdhost.handle_halt w = (success, tt, w') -> regs (target w) R0 = 0x3.
Proof.
  intros H. rewrite handle_halt_plan in H.
  apply run_plan_runs in H. destruct H as (_ & l & _ & Hruns).
  apply runs_success_final in Hruns; [|reflexivity].
  revert Hruns. unfold halt_plan.
  destruct (Z.land (mem (target w) SCB.DFSR) SCB.DFSR_reason_mask
            =? SCB.DFSR_BKPT);
    [destruct (fetched_instr (target w) =? 0xBEAB);
     [destruct (Z.eqb_spec (regs (target w) R0) 0x3)|]|];
    cbn [snd]; congruence.
Qed.

(** C6: [host_main] never returns success.  Its polling loop never finishes;
    it is left only by an iteration whose DHCSR read failed (after a hundred
    attempts when the failure is transient) or whose [handle_halt] returned
    an error, and that error is what [host_main] returns.  No semihosting
    operation ends the session: [handle_halt] succeeds only on operation 3,
    after which the loop goes on. *)
Theorem host_main_never_succeeds :
  (forall fuel w r w', swdhost.host_main fuel w = (Some r, w') -> r <> success) /\
  (forall fuel w w', swdhost.polling_loop fuel w <> (loop_finished, w')) /\
  (forall fuel w e w',
     swdhost.polling_loop fuel w = (loop_returned e, w') ->
     e <> success /\
     exists w0 j e0 dhcsr w1,
       (j < 100)%nat /\
       trace w1 =
         trace w0 ++ attempts (op_read_word DCB.DHCSR) j ++
         [ev_target (op_read_word DCB.DHCSR) e0 dhcsr] /\
       (e0 = try_again -> j = 99%nat) /\
       ((e0 <> success /\ e = e0 /\ w' = w1) \/
        (e0 = success /\ Z.land dhcsr DCB.DHCSR_S_HALT <> 0 /\
         swdhost.handle_halt w1 = (e, tt, w')))) /\
  (forall w w',
     swdhost.handle_halt w = (success, tt, w') -> regs (target w) R0 = 0x3).
Proof.
  split; [|split; [|split]].
  - exact host_main_returns_error.
  - intros fuel w w'. apply polling_loop_never_finishes.
  - intros fuel w e w'. apply polling_loop_returns.
  - exact handle_halt_serves_only_write_char.
Qed.

Lemma host_main_never_succeeds_witness :
  swdhost.host_main 2 exit_world =
    (Some failure, snd (swdhost.host_main 2 exit_world)) /\
  failure <> success.
Proof.
  assert (H : swdhost.host_main 2 exit_world =
              (Some failure, snd (swdhost.host_main 2 exit_world)))
    by (vm_compute; reflexivity).
  split; [exact H|].
  exact (proj1 host_main_never_succeeds _ _ _ _ H).
Defined.

Lemma CheckCleanup_never_succeeds {A} (c : Call A) label (k : Run) :
  (forall e w r w', e <> success -> label e w = (Some r, w') -> r <> success) ->
  (forall w r w', k w = (Some r, w') -> r <> success) ->
  forall w r w', CheckCleanup c label k w = (Some r, w') -> r <> success.
Proof.
  intros Hl Hk w r w'. unfold CheckCleanup.
  destruct (c w) as [[[] a] w1]; [apply Hk | |]; apply Hl; discriminate.
Qed.

Lemma host_cleanup_never_succeeds :
  (forall e w r w', e <> success ->
     swdhost.get_failed e w = (Some r, w') -> r <> success) /\
  (forall e w r w', e <> success ->
     swdhost.reset_failed e w = (Some r, w') -> r <> success) /\
  (forall e w r w', e <> success ->
     swdhost.host_failed e w = (Some r, w') -> r <> success).
Proof.
  assert (Hget : forall e w r w', e <> success ->
            swdhost.get_failed e w = (Some r, w') -> r <> success).
  { intros e w r w' He H. inversion H; subst. exact He. }
  assert (Hreset : forall e w r w', e <> success ->
            swdhost.reset_failed e w = (Some r, w') -> r <> success).
  { intros e w r w' He. unfold swdhost.reset_failed.
    apply CheckThen_never_succeeds. intros w0 r0 w0'. now apply Hget. }
  split; [exact Hget|]. split; [exact Hreset|].
  intros e w r w' He. unfold swdhost.host_failed.
  apply CheckThen_never_succeeds. intros w0 r0 w0'. now apply Hreset.
Qed.

(** As [host_main] never succeeds, neither does the [error_main] of the
    semihosting host, and its [main] never exits with 0. *)
Lemma host_error_main_returns_error programmer fuel w r w' :
  swdhost.error_main programmer fuel w = (Some r, w') -> r <> success.
Proof.
  destruct host_cleanup_never_succeeds as (Hget & Hreset & Hhost).
  revert w r w'. unfold swdhost.error_main.
  apply CheckThen_never_succeeds.
  apply CheckCleanup_never_succeeds;
    [intros e w r w' He H; inversion H; subst; exact He|].
  apply CheckCleanup_never_succeeds;
    [intros e w r w' He H; inversion H; subst; exact He|].
  apply CheckCleanup_never_succeeds;
    [intros e w r w' He H; inversion H; subst; exact He|].
  do 3 (apply CheckCleanup_never_succeeds; [exact Hget|]).
  do 2 (apply CheckCleanup_never_succeeds; [exact Hreset|]).
  unfold LogThen. intros w r w' H.
  destruct (swdhost.host_main fuel (emit ev_debug_chipid w))
    as [[e|] w1] eqn:Hmain; [|discriminate H].
  apply host_main_returns_error in Hmain. eapply Hhost; eauto.
Qed.

Remark host_main_exits_with_1 programmer fuel w code w' :
  swdhost.main programmer fuel w = (Some code, w') -> code = 1.
Proof.
  unfold swdhost.main. cbv zeta.
  destruct (extern CommandLine_parse w) as [[[] u] w1];
    try (intros H; now inversion H).
  destruct (swdhost.error_main programmer fuel (emit ev_set_level w1))
    as [[r|] w2] eqn:Hrun; [|discriminate].
  apply host_error_main_returns_error in Hrun.
  destruct r; [congruence| |]; intros H; now inversion H.
Qed.

(** ** The flash dump *)

Lemma succeed_first_all d fs : Forall (eq success) fs -> succeed_first d fs.
Proof.
  intros H i _. revert i. induction H as [|e fs He _ IH]; intros [|i];
    cbn [nth]; auto.
Qed.

Lemma succeed_first_tl d fs :
  succeed_first (S d) fs -> hd success fs = success /\ succeed_first d (tl fs).
Proof.
  intros H. split.
  - specialize (H 0%nat ltac:(lia)). now destruct fs.
  - intros i Hi. specialize (H (S i) ltac:(lia)).
    destruct fs; [now destruct i | exact H].
Qed.

Lemma skipn_S_tl {A} (l : list A) n : skipn (S n) l = skipn n (tl l).
Proof. destruct l; [now destruct n | reflexivity]. Qed.

Lemma perform_hd_success o w :
  hd success (faults w) = success ->
  perform o w =
  (success, op_result o (target w),
   mkWorld (op_effect (on_resume w) o (target w)) (on_resume w)
           (tl (faults w))
           (trace w ++ [ev_target o success (op_result o (target w))])).
Proof. intros H. unfold perform. now rewrite H. Qed.

Lemma word_addresses_S first n :
  word_addresses first (S n) =
  4 * Z.of_nat first :: word_addresses (S first) n.
Proof. reflexivity. Qed.

(** While the reads succeed the loop of [dump_flash] walks up the words. *)
Lemma dump_loop_advance top d : forall k fuel w,
  succeed_first d (faults w) ->
  4 * Z.of_nat (k + d) <= top < 2 ^ 32 ->
  (d <= fuel)%nat ->
  loop fuel (fun i => i <? top) (fun i => wrap32 (i + 4))
       (fun i => Check (read_word i) (fun buffer =>
                 log (ev_notice_word i buffer) (ret success tt)))
       (4 * Z.of_nat k) w =
  loop (fuel - d) (fun i => i <? top) (fun i => wrap32 (i + 4))
       (fun i => Check (read_word i) (fun buffer =>
                 log (ev_notice_word i buffer) (ret success tt)))
       (4 * Z.of_nat (k + d))
       (mkWorld (target w) (on_resume w) (skipn d (faults w))
                (trace w ++ dump_events (target w) (word_addresses k d))).
Proof.
  induction d as [|d IH]; intros k fuel w Hok Htop Hfuel.
  - rewrite Nat.add_0_r, Nat.sub_0_r. cbn [skipn word_addresses seq map
      dump_events flat_map]. now rewrite app_nil_r, world_eta.
  - destruct fuel as [|fuel]; [lia|].
    apply succeed_first_tl in Hok. destruct Hok as [Hhd Hok].
    cbn [loop].
    replace (4 * Z.of_nat k <? top) with true by (symmetry; apply Z.ltb_lt; lia).
    unfold Check at 1, read_word at 1. rewrite (perform_hd_success _ _ Hhd).
    unfold log at 1, ret at 1, emit. cbn [target on_resume faults trace op_effect op_result].
    replace (wrap32 (4 * Z.of_nat k + 4)) with (4 * Z.of_nat (S k))
      by (unfold wrap32; rewrite Z.mod_small; lia).
    rewrite IH; cbn [target on_resume faults trace]; [|exact Hok|lia|lia].
    rewrite Nat.add_succ_r, skipn_S_tl, word_addresses_S. cbn [Nat.sub Nat.add].
    cbn [dump_events flat_map app]. rewrite <- !app_assoc. reflexivity.
Qed.

Lemma hd_skipn {A} (d : A) k : forall l, hd d (skipn k l) = nth k l d.
Proof. induction k as [|k IH]; intros [|a l]; cbn [skipn nth hd]; auto. Qed.

Lemma perform_hd_error o w e :
  hd success (faults w) = e -> e <> success ->
  perform o w =
  (e, 0, mkWorld (target w) (on_resume w) (tl (faults w))
                 (trace w ++ [ev_target o e 0])).
Proof. intros H He. unfold perform. rewrite H. now destruct e. Qed.

Lemma loop_cond_false {S} fuel (cond : S -> bool) step body s w :
  cond s = false -> loop fuel cond step body s w = (loop_finished, w).
Proof. intros H. destruct fuel; cbn [loop]; now rewrite H. Qed.

Lemma wrap32_count n : 0 <= n < 2 ^ 30 -> wrap32 (n * 4) = 4 * Z.of_nat (Z.to_nat n).
Proof. intros H. unfold wrap32. rewrite Z.mod_small, Z2Nat.id; lia. Qed.

(** With [n] below 2^30 and the reads succeeding, [dump_flash] reads the
    words at 0, 4, ..., 4 * (n - 1), in this order. *)
Lemma dump_flash_reads_all n fuel w :
  0 <= n < 2 ^ 30 ->
  succeed_first (Z.to_nat n) (faults w) ->
  (Z.to_nat n <= fuel)%nat ->
  swddump.dump_flash n fuel w =
  (Some success,
   mkWorld (target w) (on_resume w) (skipn (Z.to_nat n) (faults w))
     (trace w ++ ev_notice_first_words n ::
      dump_events (target w) (word_addresses 0 (Z.to_nat n)))).
Proof.
  intros Hn Hok Hfuel. unfold swddump.dump_flash, LogThen.
  rewrite (wrap32_count n Hn).
  pose proof (dump_loop_advance (4 * Z.of_nat (Z.to_nat n)) (Z.to_nat n)
                0 fuel (emit (ev_notice_first_words n) w)) as Hloop.
  change (4 * Z.of_nat 0) with 0 in Hloop.
  rewrite Hloop; [|exact Hok|cbn [Nat.add]; lia|exact Hfuel].
  cbn [Nat.add]. rewrite loop_cond_false by apply Z.ltb_irrefl.
  unfold emit. cbn [target on_resume faults trace].
  now rewrite <- app_assoc.
Qed.

(** It stops at the first read that fails, with the error of that read. *)
Lemma dump_flash_stops n fuel w k e :
  0 <= n < 2 ^ 30 ->
  (k < Z.to_nat n)%nat ->
  (k < fuel)%nat ->
  succeed_first k (faults w) ->
  nth k (faults w) success = e ->
  e <> success ->
  swddump.dump_flash n fuel w =
  (Some e,
   mkWorld (target w) (on_resume w) (skipn (S k) (faults w))
     (trace w ++ ev_notice_first_words n ::
      dump_events (target w) (word_addresses 0 k) ++
      [ev_target (op_read_word (4 * Z.of_nat k)) e 0])).
Proof.
  intros Hn Hk Hfuel Hok Hnth He. unfold swddump.dump_flash, LogThen.
  rewrite (wrap32_count n Hn).
  pose proof (dump_loop_advance (4 * Z.of_nat (Z.to_nat n)) k
                0 fuel (emit (ev_notice_first_words n) w)) as Hloop.
  change (4 * Z.of_nat 0) with 0 in Hloop.
  rewrite Hloop; [|exact Hok|cbn [Nat.add]; lia|lia].
  unfold emit. cbn [target on_resume faults trace].
  cbn [Nat.add]. destruct (fuel - k)%nat as [|f] eqn:Hf; [lia|].
  cbn [loop].
  replace (4 * Z.of_nat k <? 4 * Z.of_nat (Z.to_nat n)) with true
    by (symmetry; apply Z.ltb_lt; lia).
  unfold Check, read_word.
  rewrite (perform_hd_error _ _ e);
    cbn [target on_resume faults trace]; [|now rewrite hd_skipn|exact He].
  destruct e; [congruence| |];
    now rewrite tl_skipn, <- !app_assoc.
Qed.

Lemma CheckThen_extern_ok c k w :
  hd success (faults w) = success ->
  CheckThen (extern c) k w =
  k (mkWorld (target w) (on_resume w) (tl (faults w))
             (trace w ++ [ev_extern c success])).
Proof. intros H. unfold CheckThen, extern. cbv zeta. now rewrite H. Qed.

Lemma CheckThen_perform_ok o k w :
  hd success (faults w) = success ->
  CheckThen (perform o) k w =
  k (mkWorld (op_effect (on_resume w) o (target w)) (on_resume w)
             (tl (faults w))
             (trace w ++ [ev_target o success (op_result o (target w))])).
Proof. intros H. unfold CheckThen. now rewrite (perform_hd_success _ _ H). Qed.

(** Up to the dump, [run_experiment] prepares the target and unmaps the boot
    sector. *)
Lemma run_experiment_start count fuel w :
  succeed_first 6 (faults w) ->
  swddump.run_experiment count fuel w =
  CheckRun (swddump.dump_flash (wrap32 count) fuel)
           (fun w1 => (Some success, w1))
    (mkWorld (set_mem 0x40048000 2 (target w)) (on_resume w)
       (skipn 6 (faults w))
       (trace w ++
        [ ev_extern swd_initialize success;
          ev_extern (swd_reset_target 100000) success;
          ev_extern dap_reset_state success;
          ev_extern target_initialize success;
          ev_extern target_halt success;
          ev_target (op_write_word 0x40048000 2) success 0 ])).
Proof.
  intros H. unfold swddump.run_experiment, swddump.unmap_boot_sector,
    write_word.
  do 5 (apply succeed_first_tl in H; destruct H as [Hhd H];
        rewrite CheckThen_extern_ok by exact Hhd; clear Hhd).
  apply succeed_first_tl in H. destruct H as [Hhd H].
  rewrite CheckThen_perform_ok by exact Hhd.
  cbn [target on_resume faults trace op_effect op_result].
  rewrite <- !app_assoc. cbn [app].
  now rewrite !skipn_S_tl.
Qed.

Lemma succeed_first_repeat k fs : succeed_first k (repeat success k ++ fs).
Proof.
  intros i Hi. rewrite app_nth1 by (rewrite repeat_length; exact Hi).
  apply nth_repeat.
Qed.

Lemma nth_after_repeat k (e : Error) fs :
  nth k (repeat success k ++ e :: fs) success = e.
Proof.
  rewrite app_nth2 by (rewrite repeat_length; lia).
  now rewrite repeat_length, Nat.sub_diag.
Qed.

Lemma skipn_after_repeat k (e : Error) fs :
  skipn (S k) (repeat success k ++ e :: fs) = fs.
Proof. induction k as [|k IH]; [reflexivity | exact IH]. Qed.

Lemma Forall_skipn {A} (P : A -> Prop) n : forall l,
  Forall P l -> Forall P (skipn n l).
Proof.
  induction n as [|n IH]; intros l H; [exact H|].
  rewrite skipn_S_tl. apply IH. now apply Forall_tl.
Qed.

Lemma word_addresses_nth n k :
  (k < n)%nat -> nth k (word_addresses 0 n) 0 = 4 * Z.of_nat k.
Proof.
  intros Hk. unfold word_addresses.
  change 0 with ((fun j => 4 * Z.of_nat j) 0%nat) at 1.
  rewrite map_nth, seq_nth by exact Hk. reflexivity.
Qed.

(** C4, for word counts below 2^30: the dump tool prepares the target, writes
    2 to SYSMEMREMAP at 0x40048000, and then [dump_flash] reads the [count]
    words at 0, 4, ..., 4 * (count - 1), in this order, logging each address
    with the value read; a read that fails ends the dump with its error,
    after the reads of the lower addresses only. *)
Theorem dump_reads_first_words (count : Z) (fuel : nat) (w : World) :
  0 <= count < 2 ^ 30 ->
  (Z.to_nat count <= fuel)%nat ->
  let n := Z.to_nat count in
  let tg := set_mem 0x40048000 2 (target w) in
  let start :=
    trace w ++
    [ ev_extern swd_initialize success;
      ev_extern (swd_reset_target 100000) success;
      ev_extern dap_reset_state success;
      ev_extern target_initialize success;
      ev_extern target_halt success;
      ev_target (op_write_word 0x40048000 2) success 0;
      ev_notice_first_words count ] in
  (all_succeed w ->
     exists w',
       swddump.run_experiment count fuel w = (Some success, w') /\
       trace w' = start ++ dump_events tg (word_addresses 0 n) /\
       target w' = tg) /\
  (forall k e rest,
     (k < n)%nat -> e <> success ->
     faults w = repeat success (6 + k) ++ e :: rest ->
     exists w',
       swddump.run_experiment count fuel w = (Some e, w') /\
       trace w' =
         start ++ dump_events tg (word_addresses 0 k) ++
         [ev_target (op_read_word (4 * Z.of_nat k)) e 0] /\
       faults w' = rest) /\
  List.length (word_addresses 0 n) = n /\
  (forall k, (k < n)%nat -> nth k (word_addresses 0 n) 0 = 4 * Z.of_nat k).
Proof.
  intros Hcount Hfuel n tg start.
  assert (Hwrap : wrap32 count = count)
    by (unfold wrap32; apply Z.mod_small; lia).
  split; [|split; [|split]].
  - intros Hall.
    rewrite run_experiment_start by now apply succeed_first_all.
    unfold CheckRun. rewrite Hwrap.
    rewrite dump_flash_reads_all;
      [|exact Hcount
       |apply succeed_first_all, Forall_skipn, Hall
       |exact Hfuel].
    eexists. split; [reflexivity|]. cbn [trace target]. split; [|reflexivity].
    unfold start. rewrite <- !app_assoc. reflexivity.
  - intros k e rest Hk He Hf.
    assert (H6 : skipn 6 (faults w) = repeat success k ++ e :: rest)
      by (rewrite Hf; reflexivity).
    assert (Hs6 : succeed_first 6 (faults w)).
    { intros i Hi. rewrite Hf.
      rewrite app_nth1 by (rewrite repeat_length; lia). apply nth_repeat. }
    rewrite run_experiment_start by exact Hs6.
    unfold CheckRun. rewrite Hwrap.
    rewrite (dump_flash_stops count fuel _ k e);
      cbn [faults target on_resume trace];
      [|exact Hcount|exact Hk|lia
       |rewrite H6; apply succeed_first_repeat
       |rewrite H6; apply nth_after_repeat
       |exact He].
    destruct e; [congruence| |];
      (eexists; split; [reflexivity|]); cbn [trace faults];
      (split; [unfold start; rewrite <- !app_assoc; reflexivity|]);
      rewrite H6; apply skipn_after_repeat.
  - unfold word_addresses. now rewrite length_map, length_seq.
  - intros k. apply word_addresses_nth.
Qed.

Lemma dump_reads_first_words_witness :
  exists w',
    swddump.run_experiment 3 3 writec_world = (Some success, w') /\
    trace w' =
      [ ev_extern swd_initialize success;
        ev_extern (swd_reset_target 100000) success;
        ev_extern dap_reset_state success;
        ev_extern target_initialize success;
        ev_extern target_halt success;
        ev_target (op_write_word 0x40048000 2) success 0;
        ev_notice_first_words 3;
        ev_target (op_read_word 0) success 0;
        ev_notice_word 0 0;
        ev_target (op_read_word 4) success 0;
        ev_notice_word 4 0;
        ev_target (op_read_word 8) success 0;
        ev_notice_word 8 0 ].
Proof.
  destruct (proj1 (dump_reads_first_words 3 3 writec_world
                     ltac:(lia) ltac:(vm_compute; lia)))
    as (w' & Hrun & Htrace & _); [constructor|].
  exists w'. split; [exact Hrun | exact Htrace].
Defined.

(** At a word count of 2^30 the byte count [n * 4] wraps to 0 in 32 bits, and
    the dump ends without a single read. *)
Lemma dump_flash_2_30_reads_nothing :
  fst (swddump.run_experiment (2 ^ 30) 0 writec_world) = Some success /\
  trace (snd (swddump.run_experiment (2 ^ 30) 0 writec_world)) =
    [ ev_extern swd_initialize success;
      ev_extern (swd_reset_target 100000) success;
      ev_extern dap_reset_state success;
      ev_extern target_initialize success;
      ev_extern target_halt success;
      ev_target (op_write_word 0x40048000 2) success 0;
      ev_notice_first_words (2 ^ 30) ].
Proof. vm_compute. split; reflexivity. Qed.

(** ** The two dump loops *)

Lemma dump_loops_agree top fuel : forall p w,
  loop fuel (fun i => swddump_rptr.rptr_lt i (swddump_rptr.mk_rptr top))
       swddump_rptr.rptr_incr
       (fun i => Check (read_word (swddump_rptr.bits i)) (fun buffer =>
                 log (ev_notice_word (swddump_rptr.bits i) buffer)
                     (ret success tt)))
       p w =
  loop fuel (fun i => i <? top) (fun i => wrap32 (i + 4))
       (fun i => Check (read_word i) (fun buffer =>
                 log (ev_notice_word i buffer) (ret success tt)))
       (swddump_rptr.bits p) w.
Proof.
  induction fuel as [|fuel IH]; intros p w; cbn [loop];
    unfold swddump_rptr.rptr_lt; cbn [swddump_rptr.bits].
  - reflexivity.
  - destruct (swddump_rptr.bits p <? top); [|reflexivity].
    destruct (Check (read_word (swddump_rptr.bits p))
                (fun buffer =>
                 log (ev_notice_word (swddump_rptr.bits p) buffer)
                     (ret success tt)) w) as [[[] u] w1];
      try reflexivity.
    apply IH.
Qed.

Lemma dump_flash_variants_agree n fuel w :
  swddump_rptr.dump_flash n fuel w = swddump.dump_flash n fuel w.
Proof.
  unfold swddump_rptr.dump_flash, swddump.dump_flash, LogThen.
  cbv zeta. unfold swddump_rptr.rptr_of, swddump_rptr.sizeof_word_t.
  now rewrite dump_loops_agree.
Qed.

(** C10, with the address sequence stated for word counts below 2^30: for
    every word count, fuel and world the remote-pointer loop and the integer
    loop give the same result, so they make the same reads at the same
    addresses in the same order and log the same (address, value) pairs; for
    a count [n] below 2^30, with the reads succeeding, these are the reads of
    0, 4, ..., 4 * (n - 1). *)
Theorem dump_flash_variants_equivalent (n : Z) (fuel : nat) (w : World) :
  swddump_rptr.dump_flash n fuel w = swddump.dump_flash n fuel w /\
  (0 <= n < 2 ^ 30 ->
   succeed_first (Z.to_nat n) (faults w) ->
   (Z.to_nat n <= fuel)%nat ->
   exists w',
     swddump_rptr.dump_flash n fuel w = (Some success, w') /\
     swddump.dump_flash n fuel w = (Some success, w') /\
     trace w' =
       trace w ++ ev_notice_first_words n ::
       dump_events (target w) (word_addresses 0 (Z.to_nat n))).
Proof.
  split; [apply dump_flash_variants_agree|].
  intros Hn Hok Hfuel. rewrite dump_flash_variants_agree.
  rewrite dump_flash_reads_all by assumption.
  eexists. repeat split.
Qed.

Lemma dump_flash_variants_equivalent_witness :
  exists w',
    swddump_rptr.dump_flash 2 2 writec_world = (Some success, w') /\
    swddump.dump_flash 2 2 writec_world = (Some success, w') /\
    trace w' =
      [ ev_notice_first_words 2;
        ev_target (op_read_word 0) success 0;
        ev_notice_word 0 0;
        ev_target (op_read_word 4) success 0;
        ev_notice_word 4 0 ].
Proof.
  apply (proj2 (dump_flash_variants_equivalent 2 2 writec_world)).
  - lia.
  - intros i _. now destruct i.
  - vm_compute. lia.
Defined.

(** At a word count of 2^30 the remote pointer [top] wraps to address 0, and
    the remote-pointer loop too ends without a single read. *)
Lemma dump_flash_rptr_2_30_reads_nothing :
  fst (swddump_rptr.dump_flash (2 ^ 30) 1 writec_world) = Some success /\
  trace (snd (swddump_rptr.dump_flash (2 ^ 30) 1 writec_world)) =
    [ ev_notice_first_words (2 ^ 30) ].
Proof. vm_compute. split; reflexivity. Qed.

(** ** Sample runs *)

Lemma writec_world_runs :
  swdhost.handle_halt writec_world =
  (success, tt, snd (swdhost.handle_halt writec_world)).
Proof. vm_compute. reflexivity. Qed.

Lemma handle_halt_instruction_fetch_witness :
  exists l,
    trace (snd (swdhost.handle_halt writec_world)) = trace writec_world ++ l /\
    filter is_memory_access l =
      [ ev_target (op_read_word SCB.DFSR) success 0x2;
        ev_target (op_read_word 0x100) success 0xBEAB0000 ].
Proof.
  destruct (handle_halt_instruction_fetch writec_world success _
              writec_world_runs)
    as (_ & _ & _ & _ & l & Htr & _ & Hok).
  destruct (Hok ltac:(constructor) eq_refl) as (Hfilter & _).
  exists l. split; [exact Htr | exact Hfilter].
Defined.

Lemma polling_accesses_retry_100_witness :
  fst (poll_plan (target writec_world)) =
    [ act_op 100 (op_read_word DCB.DHCSR);
      act_op 100 (op_read_word SCB.DFSR);
      act_op 100 (op_read_register PC);
      act_op 100 (op_read_word 0x100);
      act_op 100 (op_read_register R0);
      act_op 100 (op_read_register R1);
      act_emit (ev_putchar 0x58);
      act_emit ev_fflush;
      act_op 100 (op_write_register PC 0x104);
      act_op 1 op_resume ].
Proof.
  destruct (polling_accesses_retry_100 writec_world)
    as (_ & _ & Hplan & _).
  exact (Hplan ltac:(vm_compute; discriminate) eq_refl eq_refl eq_refl).
Defined.

(** ** Register writes over the whole session *)

Lemma pc_writes_ok_app l1 l2 :
  pc_writes_ok l1 -> pc_writes_ok l2 -> pc_writes_ok (l1 ++ l2).
Proof.
  intros H1 H2 reg x e v Hin. apply in_app_or in Hin.
  destruct Hin as [Hin|Hin]; [apply H1 in Hin|apply H2 in Hin];
    destruct Hin as (Hreg & p & Hp & Hrest); (split; [exact Hreg|]);
    exists p; (split; [apply in_or_app; auto | exact Hrest]).
Qed.

Lemma pc_writes_ok_attempts o j e v :
  is_read o = true -> pc_writes_ok (attempts o j ++ [ev_target o e v]).
Proof.
  intros Ho reg x e' v' Hin. apply in_app_or in Hin.
  destruct Hin as [Hin|[Hin|[]]].
  - apply repeat_spec in Hin. inversion Hin; subst. discriminate Ho.
  - inversion Hin; subst. discriminate Ho.
Qed.

Lemma handle_halt_pc_writes_ok w r w' :
  swdhost.handle_halt w = (r, tt, w') ->
  exists l, trace w' = trace w ++ l /\ pc_writes_ok l.
Proof.
  intros H. apply handle_halt_pc_write in H. destruct H as (l & Htr & Hw).
  exists l. split; [exact Htr|]. intros reg x e v Hin.
  destruct (Hw reg x e v Hin) as (Hreg & Hx & Hread & Hrest).
  split; [exact Hreg|]. exists (regs (target w) PC). auto.
Qed.

Lemma poll_pc_writes_ok w r w' :
  swdhost.poll tt w = (r, tt, w') ->
  exists l, trace w' = trace w ++ l /\ pc_writes_ok l.
Proof.
  intros H. apply poll_cases in H.
  destruct H as (j & e & v & w1 & _ & Htr & _ & _ & _ & Hcase).
  pose proof (pc_writes_ok_attempts (op_read_word DCB.DHCSR) j e v eq_refl)
    as Hpoll.
  destruct Hcase as [(_ & _ & ->)|[(_ & _ & _ & ->)|(_ & _ & Hh)]]; eauto.
  apply handle_halt_pc_writes_ok in Hh. destruct Hh as (l & Htr' & Hl).
  eexists. split; [rewrite Htr', Htr, <- app_assoc; reflexivity|].
  now apply pc_writes_ok_app.
Qed.

Lemma polling_loop_pc_writes_ok fuel : forall w ex w',
  swdhost.polling_loop fuel w = (ex, w') ->
  exists l, trace w' = trace w ++ l /\ pc_writes_ok l.
Proof.
  unfold swdhost.polling_loop.
  induction fuel as [|fuel IH]; intros w ex w' H; cbn [loop] in H.
  - inversion H; subst. exists []. rewrite app_nil_r. split; [reflexivity|].
    intros reg x e v [].
  - destruct (swdhost.poll tt w) as [[r []] w1] eqn:Hpoll.
    apply poll_pc_writes_ok in Hpoll. destruct Hpoll as (l & Htr & Hl).
    destruct r; [|inversion H; subst; eauto..].
    apply IH in H. destruct H as (l2 & Htr2 & Hl2).
    exists (l ++ l2). split; [rewrite Htr2, Htr; now rewrite app_assoc|].
    now apply pc_writes_ok_app.
Qed.

(** C7: the only register the debugger writes is PC, and the only value it
    writes there is pc + 2 (a 32-bit sum), where pc is the value it has just
    read from PC: in [handle_halt] the value PC holds at the halt, read
    successfully before the write; over the whole polling loop, a value some
    read of PC has returned.  So an even pc stays even, and PC is never
    advanced by 1. *)
Theorem debugger_advances_pc_by_2 :
  (forall w r w',
     swdhost.handle_halt w = (r, tt, w') ->
     let pc := regs (target w) PC in
     exists l, trace w' = trace w ++ l /\
       forall reg x e v, In (ev_target (op_write_register reg x) e v) l ->
         reg = PC /\
         x = wrap32 (pc + 2) /\
         In (ev_target (op_read_register PC) success pc) l /\
         (Z.even pc = true -> Z.even x = true) /\
         x <> wrap32 (pc + 1) /\ x <> pc + 1) /\
  (forall fuel w ex w',
     swdhost.polling_loop fuel w = (ex, w') ->
     exists l, trace w' = trace w ++ l /\ pc_writes_ok l).
Proof.
  split.
  - exact handle_halt_pc_write.
  - intros fuel. apply polling_loop_pc_writes_ok.
Qed.

Lemma debugger_advances_pc_by_2_witness :
  exists l,
    trace (snd (swdhost.handle_halt writec_world)) = trace writec_world ++ l /\
    forall reg x e v, In (ev_target (op_write_register reg x) e v) l ->
      reg = PC /\ x = 0x104.
Proof.
  destruct (proj1 debugger_advances_pc_by_2 writec_world success _
              writec_world_runs) as (l & Htr & Hw).
  exists l. split; [exact Htr|].
  intros reg x e v Hin. destruct (Hw reg x e v Hin) as (Hreg & Hx & _).
  split; [exact Hreg | exact Hx].
Defined.

(** * Further properties of the tools *)

(** ** Faults only truncate what [handle_halt] does *)

Lemma filter_successful_attempts o j : filter successful (attempts o j) = [].
Proof. induction j as [|j IH]; [reflexivity | exact IH]. Qed.

Lemma run_plan_no_faults run p final : forall tg tr,
  run_plan p final (mkWorld tg run [] tr) =
  (final, tt,
   mkWorld (plan_target run tg p) run [] (tr ++ plan_events run tg p)).
Proof.
  induction p as [|[n o|e] p IH]; intros tg tr; cbn [run_plan plan_target plan_events].
  - unfold ret. now rewrite app_nil_r.
  - rewrite CheckRetry_all_succeed by constructor.
    cbn [target on_resume faults trace tl]. rewrite IH.
    now rewrite <- app_assoc.
  - unfold log, emit. cbn [target on_resume faults trace]. rewrite IH.
    now rewrite <- app_assoc.
Qed.

(** The successful events of a run are the events of a prefix of the plan,
    run without faults; the prefix is the whole plan unless an access
    failed. *)
Lemma runs_prefix run tg p final l r tg' :
  runs run tg p final l r tg' ->
  Forall emits_successful p ->
  exists k,
    (k <= List.length p)%nat /\
    filter successful l = plan_events run tg (firstn k p) /\
    tg' = plan_target run tg (firstn k p) /\
    ((k = List.length p /\ r = final) \/
     (r <> success /\
      exists n o, nth_error p k = Some (act_op n o) /\
                  exists l0, l = l0 ++ [ev_target o r 0])).
Proof.
  induction 1 as [tg final|tg e p final l r tg' _ IH
                 |tg n o j p final l r tg' Hj _ IH
                 |tg n o j e p final Hj He Hlast]; intros Hp.
  - exists 0%nat. cbn. repeat split; auto.
  - inversion Hp as [|? ? Ha Hp']; subst. cbn [emits_successful] in Ha.
    destruct (IH Hp') as (k & Hk & Hf & Htg & Hend).
    exists (S k). cbn [List.length firstn plan_events plan_target filter].
    rewrite Ha, Hf. repeat split; [lia | exact Htg |].
    destruct Hend as [[-> ->]|(Hr & n & o & Hnth & l0 & ->)]; [now left|].
    right. split; [exact Hr|]. exists n, o. split; [exact Hnth|].
    now exists (e :: l0).
  - inversion Hp as [|? ? Ha Hp']; subst.
    destruct (IH Hp') as (k & Hk & Hf & Htg & Hend).
    exists (S k). cbn [List.length firstn plan_events plan_target].
    rewrite filter_app, filter_successful_attempts. cbn [app filter successful].
    rewrite Hf. repeat split; [lia | exact Htg |].
    destruct Hend as [[-> ->]|(Hr & n' & o' & Hnth & l0 & ->)]; [now left|].
    right. split; [exact Hr|]. exists n', o'. split; [exact Hnth|].
    exists (attempts o j ++ ev_target o success (op_result o tg) :: l0).
    now rewrite <- app_assoc.
  - exists 0%nat. cbn [firstn plan_events plan_target].
    rewrite filter_app, filter_successful_attempts. cbn [app filter successful].
    destruct e; [congruence| |];
      (repeat split; [lia|]); right; (split; [discriminate|]);
      exists n, o; (split; [reflexivity|]); now exists (attempts o j).
Qed.

Lemma halt_plan_emits_successful tg :
  Forall emits_successful (fst (halt_plan tg)).
Proof.
  unfold halt_plan.
  destruct (Z.land (mem tg SCB.DFSR) SCB.DFSR_reason_mask =? SCB.DFSR_BKPT);
    [destruct (fetched_instr tg =? 0xBEAB);
     [destruct (regs tg R0 =? 0x3)|]|];
    cbn [fst reads_of_breakpoint reads_of_request app];
    repeat constructor.
Qed.

Lemma firstn_plan_events run p : forall tg k,
  plan_events run tg (firstn k p) = firstn k (plan_events run tg p).
Proof.
  induction p as [|[n o|e] p IH]; intros tg [|k]; cbn [firstn plan_events];
    try reflexivity; now rewrite IH.
Qed.

Lemma plan_events_length run p : forall tg,
  List.length (plan_events run tg p) = List.length p.
Proof.
  induction p as [|[n o|e] p IH]; intros tg; cbn [plan_events List.length];
    auto.
Qed.

(** X1: under any fault schedule, what [handle_halt] gets done is a prefix of
    what it does when nothing fails.  Either its events, failed attempts set
    aside, are exactly those of the fault-free run on the same target, with
    the same result and the same final target; or it returns the error of a
    failed access, that attempt being its last event, after a strict prefix
    of the fault-free events. *)
Theorem handle_halt_faults_truncate (w : World) (r : Error) (w' : World) :
  swdhost.handle_halt w = (r, tt, w') ->
  let ideal := swdhost.handle_halt (no_faults w) in
  exists l, trace w' = trace w ++ l /\
    ((filter successful l = trace (snd ideal) /\
      r = fst (fst ideal) /\
      target w' = target (snd ideal)) \/
     (r <> success /\
      exists k o,
        (k < List.length (trace (snd ideal)))%nat /\
        filter successful l = firstn k (trace (snd ideal)) /\
        exists l0, l = l0 ++ [ev_target o r 0])).
Proof.
  intros H ideal. unfold ideal, no_faults.
  rewrite handle_halt_plan in H. rewrite handle_halt_plan.
  cbn [target]. rewrite run_plan_no_faults. cbn [fst snd trace target app].
  apply run_plan_runs in H. destruct H as (_ & l & Htr & Hruns).
  exists l. split; [exact Htr|].
  destruct (runs_prefix _ _ _ _ _ _ _ Hruns (halt_plan_emits_successful _))
    as (k & Hk & Hf & Htg & [[-> ->]|(Hr & n & o & Hnth & l0 & Hl0)]).
  - left. rewrite firstn_all in Hf, Htg. auto.
  - right. split; [exact Hr|]. exists k, o.
    rewrite plan_events_length, <- firstn_plan_events.
    split; [apply nth_error_Some; congruence|]. split; [exact Hf|].
    now exists l0.
Qed.

Lemma retried_world_runs :
  swdhost.handle_halt (quiet (halted_on_request 0x3) [try_again; try_again]) =
  (success, tt,
   snd (swdhost.handle_halt
          (quiet (halted_on_request 0x3) [try_again; try_again]))).
Proof. vm_compute. reflexivity. Qed.

Lemma handle_halt_faults_truncate_witness :
  exists l,
    trace (snd (swdhost.handle_halt
                  (quiet (halted_on_request 0x3) [try_again; try_again]))) =
    trace (quiet (halted_on_request 0x3) [try_again; try_again]) ++ l /\
    filter successful l = trace (snd (swdhost.handle_halt writec_world)).
Proof.
  destruct (handle_halt_faults_truncate _ _ _ retried_world_runs)
    as (l & Htr & [(Hf & _)|(Hr & _)]).
  - exists l. split; [exact Htr | exact Hf].
  - now destruct Hr.
Defined.

(** ** What an error of [handle_halt] leaves behind *)

Lemma regs_set_reg_other r v tg reg :
  reg <> r -> regs (set_reg r v tg) reg = regs tg reg.
Proof.
  intros H. cbn [set_reg regs]. now destruct (Register_eq_dec reg r).
Qed.

(** X2: when [handle_halt] returns an error, under any fault schedule, the
    target's memory and all its registers but PC are as they were; PC itself
    is untouched, unless the error is that of the final resume, in which case
    PC has already been advanced by 2. *)
Theorem handle_halt_error_state (w : World) (r : Error) (w' : World) :
  swdhost.handle_halt w = (r, tt, w') ->
  r <> success ->
  mem (target w') = mem (target w) /\
  (forall reg, reg <> PC -> regs (target w') reg = regs (target w) reg) /\
  (regs (target w') PC = regs (target w) PC \/
   regs (target w') PC = wrap32 (regs (target w) PC + 2) /\
   exists l0, trace w' = trace w ++ l0 ++ [ev_target op_resume r 0]).
Proof.
  intros H Hr. rewrite handle_halt_plan in H.
  apply run_plan_runs in H. destruct H as (_ & l & Htr & Hruns).
  destruct (runs_prefix _ _ _ _ _ _ _ Hruns (halt_plan_emits_successful _))
    as (k & Hk & _ & Htg & Hend).
  revert Hk Htg Hend. unfold halt_plan.
  destruct (Z.land (mem (target w) SCB.DFSR) SCB.DFSR_reason_mask
            =? SCB.DFSR_BKPT);
    [destruct (fetched_instr (target w) =? 0xBEAB);
     [destruct (regs (target w) R0 =? 0x3)|]|];
    cbn [fst snd reads_of_breakpoint reads_of_request app List.length];
    intros Hk Htg Hend;
    (destruct Hend as [[-> Hfin]|(_ & n & o & Hnth & l0 & Hl0)];
     [try congruence; cbn in Htg; rewrite Htg; repeat split; auto; fail|]);
    do 10 (try (destruct k as [|k];
                [cbn in Htg, Hnth; try discriminate Hnth; rewrite Htg;
                 try (repeat split; auto; fail)|]));
    try (cbn in Hnth; discriminate Hnth).
  inversion Hnth; subst o n. split; [reflexivity|].
  split; [intros reg Hreg; now apply regs_set_reg_other|].
  right. split; [reflexivity|]. exists l0. now rewrite Htr, Hl0.
Qed.

Lemma failed_resume_runs :
  swdhost.handle_halt
    (quiet (halted_on_request 0x3) (repeat success 6 ++ [failure])) =
  (failure, tt,
   snd (swdhost.handle_halt
          (quiet (halted_on_request 0x3) (repeat success 6 ++ [failure])))).
Proof. vm_compute. reflexivity. Qed.

Lemma handle_halt_error_state_witness :
  mem (target (snd (swdhost.handle_halt
         (quiet (halted_on_request 0x3) (repeat success 6 ++ [failure]))))) =
  mem (halted_on_request 0x3).
Proof.
  exact (proj1 (handle_halt_error_state _ _ _ failed_resume_runs
                  ltac:(discriminate))).
Defined.

(** ** The three refusals of [handle_halt] *)

(** X3: with every transaction succeeding, each halt that [handle_halt] does
    not serve ends in [Err::failure] right after one warning that carries
    what was captured: the DFSR value for a halt that is no breakpoint, the
    instruction and PC for a breakpoint that is not BKPT 0xAB, the operation
    code for an operation other than 3.  The reads stop where the halt is
    refused, except that the parameter in R1 is read together with the
    operation in R0, before the operation is examined, and so also for an
    operation that is then refused. *)
Theorem handle_halt_refusals (w : World) :
  all_succeed w ->
  let tg := target w in
  let dfsr := mem tg SCB.DFSR in
  let pc := regs tg PC in
  let base := Z.land pc (Z.lnot 0x3) in
  let read_dfsr := ev_target (op_read_word SCB.DFSR) success dfsr in
  let read_pc := ev_target (op_read_register PC) success pc in
  let read_instr := ev_target (op_read_word base) success (mem tg base) in
  (Z.land dfsr SCB.DFSR_reason_mask <> SCB.DFSR_BKPT ->
   exists w', swdhost.handle_halt w = (failure, tt, w') /\
     trace w' = trace w ++ [read_dfsr; ev_warning_unexpected_halt dfsr]) /\
  (Z.land dfsr SCB.DFSR_reason_mask = SCB.DFSR_BKPT ->
   fetched_instr tg <> 0xBEAB ->
   exists w', swdhost.handle_halt w = (failure, tt, w') /\
     trace w' = trace w ++
       [ read_dfsr; read_pc; read_instr;
         ev_warning_unexpected_breakpoint (fetched_instr tg) pc ]) /\
  (Z.land dfsr SCB.DFSR_reason_mask = SCB.DFSR_BKPT ->
   fetched_instr tg = 0xBEAB ->
   regs tg R0 <> 0x3 ->
   exists w', swdhost.handle_halt w = (failure, tt, w') /\
     trace w' = trace w ++
       [ read_dfsr; read_pc; read_instr;
         ev_target (op_read_register R0) success (regs tg R0);
         ev_target (op_read_register R1) success (regs tg R1);
         ev_warning_unsupported_operation (regs tg R0) ]).
Proof.
  intros Hall tg dfsr pc base read_dfsr read_pc read_instr.
  split; [|split].
  - intros H1. rewrite handle_halt_plan. unfold halt_plan. fold tg. fold dfsr.
    rewrite (proj2 (Z.eqb_neq _ _) H1). cbn [fst snd].
    run_ok. eexists. split; [reflexivity|]. unfold emit.
    cbn [trace target op_effect op_result]. now rewrite <- !app_assoc.
  - intros H1 H2. rewrite handle_halt_plan. unfold halt_plan. fold tg.
    fold dfsr.
    rewrite (proj2 (Z.eqb_eq _ _) H1), (proj2 (Z.eqb_neq _ _) H2).
    cbn [fst snd reads_of_breakpoint app].
    run_ok. eexists. split; [reflexivity|]. unfold emit.
    cbn [trace target op_effect op_result]. now rewrite <- !app_assoc.
  - intros H1 H2 H3. rewrite handle_halt_plan. unfold halt_plan. fold tg.
    fold dfsr.
    rewrite (proj2 (Z.eqb_eq _ _) H1), (proj2 (Z.eqb_eq _ _) H2),
      (proj2 (Z.eqb_neq _ _) H3).
    cbn [fst snd reads_of_breakpoint reads_of_request app].
    run_ok. eexists. split; [reflexivity|]. unfold emit.
    cbn [trace target op_effect op_result]. now rewrite <- !app_assoc.
Qed.

Lemma handle_halt_refusals_witness :
  exists w',
    swdhost.handle_halt exit_world = (failure, tt, w') /\
    trace w' =
      [ ev_target (op_read_word SCB.DFSR) success 0x2;
        ev_target (op_read_register PC) success 0x102;
        ev_target (op_read_word 0x100) success 0xBEAB0000;
        ev_target (op_read_register R0) success 0x18;
        ev_target (op_read_register R1) success 0x58;
        ev_warning_unsupported_operation 0x18 ].
Proof.
  destruct (handle_halt_refusals exit_world ltac:(constructor))
    as (_ & _ & H).
  exact (H eq_refl eq_refl ltac:(discriminate)).
Defined.

(** ** A session of write-character requests *)

(** A plan run with every transaction succeeding. *)
Lemma run_plan_all_succeed p final : forall w,
  all_succeed w ->
  exists w',
    run_plan p final w = (final, tt, w') /\
    all_succeed w' /\
    on_resume w' = on_resume w /\
    target w' = plan_target (on_resume w) (target w) p /\
    trace w' = trace w ++ plan_events (on_resume w) (target w) p.
Proof.
  induction p as [|[n o|e] p IH]; intros w Hall;
    cbn [run_plan plan_target plan_events].
  - exists w. unfold ret. rewrite app_nil_r. auto.
  - rewrite CheckRetry_all_succeed by exact Hall.
    match goal with |- context [run_plan p final ?x] =>
      destruct (IH x) as (w' & Hrun & Hall' & Hres & Htg & Htr);
        [all_succeed_tac|]
    end.
    exists w'. split; [exact Hrun|]. split; [exact Hall'|].
    cbn [target on_resume trace] in Hres, Htg, Htr.
    split; [exact Hres|]. split; [exact Htg|].
    now rewrite Htr, <- app_assoc.
  - unfold log.
    destruct (IH (emit e w)) as (w' & Hrun & Hall' & Hres & Htg & Htr);
      [unfold emit; all_succeed_tac|].
    exists w'. split; [exact Hrun|]. split; [exact Hall'|].
    unfold emit in Hres, Htg, Htr. cbn [target on_resume trace] in Hres, Htg, Htr.
    split; [exact Hres|]. split; [exact Htg|].
    now rewrite Htr, <- app_assoc.
Qed.

(** One iteration of the loop on a pending write-character request. *)
Lemma poll_serves w :
  all_succeed w ->
  write_char_pending (target w) ->
  exists w1,
    swdhost.poll tt w = (success, tt, w1) /\
    all_succeed w1 /\
    on_resume w1 = on_resume w /\
    target w1 = served (on_resume w) (target w) /\
    exists l, trace w1 = trace w ++ l /\
      filter is_console l = console_char (Z.land (regs (target w) R1) 0xFF).
Proof.
  intros Hall (Hhalt & Hreason & Hinstr & Hop).
  rewrite poll_is_plan.
  destruct (run_plan_all_succeed (fst (poll_plan (target w)))
              (snd (poll_plan (target w))) w Hall)
    as (w1 & Hrun & Hall1 & Hres & Htg & Htr).
  revert Hrun Htg Htr. unfold poll_plan, halt_plan.
  rewrite (proj2 (Z.eqb_neq _ _) Hhalt), (proj2 (Z.eqb_eq _ _) Hreason),
    (proj2 (Z.eqb_eq _ _) Hinstr), (proj2 (Z.eqb_eq _ _) Hop).
  cbn [negb fst snd reads_of_breakpoint reads_of_request app
       plan_target plan_events op_effect op_result].
  intros Hrun Htg Htr.
  exists w1. split; [exact Hrun|]. split; [exact Hall1|].
  split; [exact Hres|]. split; [exact Htg|].
  eexists. split; [exact Htr|].
  cbn [filter is_console console_char]. now rewrite land_low_byte.
Qed.

(** X4: as long as the core keeps halting on write-character requests and the
    transactions succeed, the host serves them one per iteration: the console
    receives the low byte of each R1 in order, each followed by a flush, and
    the core is left resumed after the last one with PC moved past each
    breakpoint. *)
Theorem host_forwards_characters (n : nat) : forall (w : World),
  all_succeed w ->
  Forall write_char_pending (session_halts (on_resume w) (target w) n) ->
  exists w',
    swdhost.polling_loop n w = (loop_running, w') /\
    target w' = session_end (on_resume w) (target w) n /\
    exists l, trace w' = trace w ++ l /\
      filter is_console l =
      flat_map (fun tg => console_char (Z.land (regs tg R1) 0xFF))
               (session_halts (on_resume w) (target w) n).
Proof.
  induction n as [|n IH]; intros w Hall Hpend.
  - exists w. split; [reflexivity|]. split; [reflexivity|].
    exists []. now rewrite app_nil_r.
  - cbn [session_halts] in Hpend. inversion Hpend as [|? ? Hnow Hlater]; subst.
    destruct (poll_serves w Hall Hnow)
      as (w1 & Hpoll & Hall1 & Hrun1 & Htg1 & l1 & Htr1 & Hcon1).
    rewrite <- Htg1, <- Hrun1 in Hlater.
    destruct (IH w1 Hall1 Hlater) as (w' & Hloop & Htg' & l2 & Htr2 & Hcon2).
    exists w'. unfold swdhost.polling_loop in *. cbn [loop]. rewrite Hpoll.
    split; [exact Hloop|].
    split; [rewrite Htg', Hrun1, Htg1; reflexivity|].
    exists (l1 ++ l2). split; [rewrite Htr2, Htr1; now rewrite app_assoc|].
    rewrite filter_app, Hcon1, Hcon2, Hrun1, Htg1. reflexivity.
Qed.

Lemma host_forwards_characters_witness :
  exists w',
    swdhost.polling_loop 1 writec_world = (loop_running, w') /\
    target w' = session_end (on_resume writec_world) (target writec_world) 1 /\
    exists l, trace w' = trace writec_world ++ l /\
      filter is_console l = [ev_putchar 0x58; ev_fflush].
Proof.
  apply (host_forwards_characters 1 writec_world).
  - constructor.
  - repeat constructor. vm_compute. discriminate.
Defined.

(** ** A core that does not halt *)

Lemma poll_running w :
  all_succeed w ->
  Z.land (mem (target w) DCB.DHCSR) DCB.DHCSR_S_HALT = 0 ->
  swdhost.poll tt w =
  (success, tt,
   mkWorld (target w) (on_resume w) (tl (faults w))
     (trace w ++ [ev_target (op_read_word DCB.DHCSR) success
                            (mem (target w) DCB.DHCSR)])).
Proof.
  intros Hall Hrun. rewrite poll_is_plan. unfold poll_plan.
  rewrite (proj2 (Z.eqb_eq _ _) Hrun). cbn [negb fst snd].
  run_ok. reflexivity.
Qed.

Lemma polling_loop_running fuel : forall w,
  all_succeed w ->
  Z.land (mem (target w) DCB.DHCSR) DCB.DHCSR_S_HALT = 0 ->
  swdhost.polling_loop fuel w =
  (loop_running,
   mkWorld (target w) (on_resume w) (skipn fuel (faults w))
     (trace w ++ repeat (ev_target (op_read_word DCB.DHCSR) success
                                   (mem (target w) DCB.DHCSR)) fuel)).
Proof.
  unfold swdhost.polling_loop.
  induction fuel as [|fuel IH]; intros w Hall Hrun; cbn [loop].
  - cbn [skipn repeat]. now rewrite app_nil_r, world_eta.
  - rewrite (poll_running w Hall Hrun).
    rewrite IH; cbn [target on_resume faults trace];
      [|all_succeed_tac|exact Hrun].
    rewrite skipn_S_tl. cbn [repeat]. now rewrite <- app_assoc.
Qed.

(** X5: while the core runs (S_HALT clear) and the transactions succeed,
    [host_main] never returns, however long it is given: after its
    initialisation it does nothing but read DHCSR, once per iteration, with
    no timeout. *)
Theorem host_waits_for_halt (fuel : nat) (w : World) :
  all_succeed w ->
  Z.land (mem (target w) DCB.DHCSR) DCB.DHCSR_S_HALT = 0 ->
  exists w',
    swdhost.host_main fuel w = (None, w') /\
    trace w' =
      trace w ++
      [ ev_extern swd_initialize success;
        ev_extern swd_enter_reset success;
        ev_usleep 10000;
        ev_extern dap_reset_state success;
        ev_extern target_initialize success;
        ev_extern target_reset_halt_state success;
        ev_extern swd_leave_reset success ] ++
      repeat (ev_target (op_read_word DCB.DHCSR) success
                        (mem (target w) DCB.DHCSR)) fuel.
Proof.
  intros Hall Hrun. unfold swdhost.host_main.
  pose proof (succeed_first_all 6 _ Hall) as H.
  do 2 (apply succeed_first_tl in H; destruct H as [Hhd H];
        rewrite CheckThen_extern_ok by exact Hhd; clear Hhd).
  unfold LogThen at 1.
  do 4 (apply succeed_first_tl in H; destruct H as [Hhd H];
        rewrite CheckThen_extern_ok by exact Hhd; clear Hhd).
  rewrite polling_loop_running;
    [|unfold emit; all_succeed_tac|exact Hrun].
  eexists. split; [reflexivity|].
  unfold emit. cbn [trace target]. rewrite <- !app_assoc. reflexivity.
Qed.

Lemma host_waits_for_halt_witness :
  exists w',
    swdhost.host_main 2 (quiet (mkTarget (fun _ => 0) (fun _ => 0)) []) =
      (None, w') /\
    trace w' =
      [ ev_extern swd_initialize success;
        ev_extern swd_enter_reset success;
        ev_usleep 10000;
        ev_extern dap_reset_state success;
        ev_extern target_initialize success;
        ev_extern target_reset_halt_state success;
        ev_extern swd_leave_reset success;
        ev_target (op_read_word DCB.DHCSR) success 0;
        ev_target (op_read_word DCB.DHCSR) success 0 ].
Proof.
  apply (host_waits_for_halt 2
           (quiet (mkTarget (fun _ => 0) (fun _ => 0)) [])).
  - constructor.
  - reflexivity.
Defined.

(** ** The console under any fault schedule *)

Lemma filter_console_successful l :
  filter is_console (filter successful l) = filter is_console l.
Proof.
  induction l as [|ev l IH]; [reflexivity|].
  destruct ev as [o [] v| | | | | | | | | | | | |]; cbn [filter successful is_console];
    auto; now rewrite IH.
Qed.

Lemma handle_halt_console w r w' :
  swdhost.handle_halt w = (r, tt, w') ->
  exists l, trace w' = trace w ++ l /\
    (filter is_console l = [] \/
     filter is_console l = console_char (Z.land (regs (target w) R1) 0xFF)).
Proof.
  intros H. rewrite handle_halt_plan in H.
  apply run_plan_runs in H. destruct H as (_ & l & Htr & Hruns).
  exists l. split; [exact Htr|].
  destruct (runs_prefix _ _ _ _ _ _ _ Hruns (halt_plan_emits_successful _))
    as (k & Hk & Hf & _ & Hend).
  rewrite <- filter_console_successful, Hf. rewrite land_low_byte.
  revert Hk Hend. clear. unfold halt_plan.
  destruct (Z.land (mem (target w) SCB.DFSR) SCB.DFSR_reason_mask
            =? SCB.DFSR_BKPT);
    [destruct (fetched_instr (target w) =? 0xBEAB);
     [destruct (regs (target w) R0 =? 0x3)|]|];
    cbn [fst snd reads_of_breakpoint reads_of_request app List.length];
    intros Hk Hend;
    (destruct Hend as [[-> _]|(_ & n & o & Hnth & _)];
     [cbn; auto; fail|]);
    do 10 (try (destruct k as [|k];
                [cbn in Hnth; try discriminate Hnth; cbn; auto; fail|]));
    cbn in Hnth; discriminate Hnth.
Qed.

Lemma flat_map_console_app cs1 cs2 :
  flat_map console_char (cs1 ++ cs2) =
  flat_map console_char cs1 ++ flat_map console_char cs2.
Proof. apply flat_map_app. Qed.

(** X6: under any fault schedule, what the console receives over any run of
    the polling loop is a sequence of bytes, each a value below 256 and each
    followed by its own flush: no byte is left unflushed and nothing else is
    written. *)
Theorem console_receives_flushed_bytes (fuel : nat) : forall w ex w',
  swdhost.polling_loop fuel w = (ex, w') ->
  exists l cs,
    trace w' = trace w ++ l /\
    filter is_console l = flat_map console_char cs /\
    Forall (fun c => 0 <= c < 256) cs.
Proof.
  unfold swdhost.polling_loop.
  induction fuel as [|fuel IH]; intros w ex w' H; cbn [loop] in H.
  - inversion H; subst. exists [], []. rewrite app_nil_r. auto.
  - destruct (swdhost.poll tt w) as [[r []] w1] eqn:Hpoll.
    assert (Hiter : exists l cs,
               trace w1 = trace w ++ l /\
               filter is_console l = flat_map console_char cs /\
               Forall (fun c => 0 <= c < 256) cs).
    { apply poll_cases in Hpoll.
      destruct Hpoll as (j & e & v & w0 & _ & Htr & _ & _ & _ & Hcase).
      assert (Hquiet : filter is_console
                (attempts (op_read_word DCB.DHCSR) j ++
                 [ev_target (op_read_word DCB.DHCSR) e v]) = []).
      { rewrite filter_app. cbn [filter is_console app].
        rewrite app_nil_r. clear. induction j; [reflexivity | assumption]. }
      destruct Hcase as [(_ & _ & ->)|[(_ & _ & _ & ->)|(_ & _ & Hh)]].
      - eexists. exists []. eauto.
      - eexists. exists []. eauto.
      - apply handle_halt_console in Hh.
        destruct Hh as (l2 & Htr2 & Hcon).
        eexists.
        exists (match filter is_console l2 with
                | [] => []
                | _ => [Z.land (regs (target w0) R1) 0xFF]
                end).
        split; [rewrite Htr2, Htr, <- app_assoc; reflexivity|].
        rewrite filter_app, Hquiet. cbn [app].
        destruct Hcon as [->| ->]; cbn [console_char flat_map app];
          (split; [reflexivity|]); repeat constructor;
          rewrite land_low_byte; apply Z.mod_pos_bound; lia. }
    destruct Hiter as (l & cs & Htr & Hcon & Hcs).
    destruct r; [|inversion H; subst; eauto..].
    apply IH in H. destruct H as (l2 & cs2 & Htr2 & Hcon2 & Hcs2).
    exists (l ++ l2), (cs ++ cs2).
    split; [rewrite Htr2, Htr; now rewrite app_assoc|].
    split; [now rewrite filter_app, Hcon, Hcon2, flat_map_console_app|].
    apply Forall_app. auto.
Qed.

Lemma console_receives_flushed_bytes_witness :
  exists l cs,
    trace (snd (swdhost.polling_loop 3 writec_world)) =
      trace writec_world ++ l /\
    filter is_console l = flat_map console_char cs /\
    Forall (fun c => 0 <= c < 256) cs.
Proof.
  apply (console_receives_flushed_bytes 3 writec_world
           (fst (swdhost.polling_loop 3 writec_world))).
  apply surjective_pairing.
Defined.

(** ** The instruction halfword *)

(** X7: [extract_instr] takes apart what two halfwords put together: from the
    word made of a low halfword [lo] and a high halfword [hi] it returns [hi]
    when bit 1 of PC is set and [lo] otherwise.  Only that bit of PC is looked
    at, so bit 0 and the bits above change nothing. *)
Theorem extract_instr_halfwords (pc lo hi : Z) :
  0 <= lo < 2 ^ 16 ->
  0 <= hi < 2 ^ 16 ->
  swdhost.extract_instr pc (hi * 2 ^ 16 + lo) =
    (if Z.testbit pc 1 then hi else lo) /\
  forall instr_word,
    swdhost.extract_instr pc instr_word =
    swdhost.extract_instr (Z.land pc 2) instr_word.
Proof.
  intros Hlo Hhi.
  assert (Hbit : (Z.land pc 2 =? 0) = negb (Z.testbit pc 1)).
  { change 2 with (Z.shiftl 1 1).
    destruct (Z.testbit pc 1) eqn:Hb; cbn [negb].
    - apply Z.eqb_neq. intros H0.
      assert (Ht : Z.testbit (Z.land pc (Z.shiftl 1 1)) 1 = false)
        by (rewrite H0; apply Z.bits_0).
      rewrite Z.land_spec, Hb in Ht. discriminate Ht.
    - apply Z.eqb_eq. apply Z.bits_inj'. intros i Hi.
      rewrite Z.land_spec, Z.bits_0.
      destruct (Z.eq_dec i 1) as [->|Hne].
      + rewrite Hb. reflexivity.
      + assert (Hz : Z.testbit (Z.shiftl 1 1) i = false).
        { rewrite Z.shiftl_spec by lia.
          destruct (Z.ltb_spec (i - 1) 0) as [Hneg|Hpos].
          - now apply Z.testbit_neg_r.
          - change 1 with (Z.ones 1) at 1.
            apply Z.ones_spec_high. lia. }
        rewrite Hz. apply andb_false_r. }
  split.
  - unfold swdhost.extract_instr, wrap16. rewrite Hbit, negb_involutive.
    destruct (Z.testbit pc 1).
    + rewrite Z.shiftr_div_pow2 by lia.
      rewrite Z.div_add_l by lia. rewrite (Z.div_small lo) by lia.
      rewrite Z.add_0_r. apply Z.mod_small. lia.
    + change 0xFFFF with (Z.ones 16). rewrite Z.land_ones by lia.
      rewrite Z.mod_mod by lia.
      rewrite Z.add_comm, Z.mod_add by lia. apply Z.mod_small. lia.
  - intros instr_word. unfold swdhost.extract_instr.
    now rewrite <- Z.land_assoc, Z.land_diag.
Qed.

Lemma extract_instr_halfwords_witness :
  swdhost.extract_instr 0x102 (0xBEAB * 2 ^ 16 + 0x4770) =
  (if Z.testbit 0x102 1 then 0xBEAB else 0x4770).
Proof.
  exact (proj1 (extract_instr_halfwords 0x102 0x4770 0xBEAB
                  ltac:(lia) ltac:(lia))).
Defined.

(** ** The programmer table *)

(** X8: [lookup_programmer] succeeds exactly for the names "um232h" and
    "bus_blaster", without doing anything else; and with any other name the
    [error_main] of the semihosting host returns [Err::failure] at once,
    before any call into the USB libraries and with nothing to clean up. *)
Theorem unknown_programmer_fails_early (name : string) (w : World) :
  swdhost.lookup_programmer name w =
    (if (String.eqb name "um232h" || String.eqb name "bus_blaster")%bool
     then success else failure, tt, w) /\
  (fst (fst (swdhost.lookup_programmer name w)) = success <->
   name = "um232h"%string \/ name = "bus_blaster"%string) /\
  (name <> "um232h"%string -> name <> "bus_blaster"%string ->
   forall fuel, swdhost.error_main name fuel w = (Some failure, w)).
Proof.
  assert (Hlook : swdhost.lookup_programmer name w =
    (if (String.eqb name "um232h" || String.eqb name "bus_blaster")%bool
     then success else failure, tt, w)).
  { unfold swdhost.lookup_programmer, swdhost.programmer_table.
    cbn [existsb]. rewrite orb_false_r.
    now destruct (String.eqb name "um232h" || String.eqb name "bus_blaster")%bool. }
  split; [exact Hlook|]. split.
  - rewrite Hlook. cbn [fst].
    destruct (String.eqb_spec name "um232h") as [->|H1]; cbn [orb];
      [split; auto|].
    destruct (String.eqb_spec name "bus_blaster") as [->|H2];
      [split; auto|].
    split; [discriminate | intros [?|?]; contradiction].
  - intros H1 H2 fuel. unfold swdhost.error_main, CheckThen. rewrite Hlook.
    rewrite (proj2 (String.eqb_neq _ _) H1), (proj2 (String.eqb_neq _ _) H2).
    reflexivity.
Qed.

Lemma unknown_programmer_fails_early_witness :
  swdhost.error_main "jlink" 5 writec_world = (Some failure, writec_world).
Proof.
  apply (proj2 (proj2 (unknown_programmer_fails_early "jlink" writec_world)));
    discriminate.
Defined.

(** ** The dump under any count and any fault schedule *)

Lemma wrap32_mul_4 n : wrap32 (n * 4) = 4 * (n mod 2 ^ 30).
Proof.
  unfold wrap32. rewrite (Z.mul_comm n 4).
  change (2 ^ 32) with (4 * 2 ^ 30).
  apply Z.mul_mod_distr_l; lia.
Qed.

Lemma succeed_first_cons d fs :
  hd success fs = success -> succeed_first d (tl fs) ->
  succeed_first (S d) fs.
Proof.
  intros Hhd H [|i] Hi.
  - now destruct fs.
  - destruct fs as [|e fs]; [now destruct i|]. apply H. lia.
Qed.

Lemma nth_S_tl {A} (d : A) i l : nth (S i) l d = nth i (tl l) d.
Proof. destruct l; [now destruct i | reflexivity]. Qed.

(** The loop of [dump_flash], started at word [k] with [m] words to reach:
    it reads [d] further words, and ends because it reached [m], or ran out
    of fuel, or met a read that failed. *)
Lemma dump_loop_behaviour m fuel : forall k w ex w',
  4 * Z.of_nat m < 2 ^ 32 ->
  (k <= m)%nat ->
  loop fuel (fun i => i <? 4 * Z.of_nat m) (fun i => wrap32 (i + 4))
       (fun i => Check (read_word i) (fun buffer =>
                 log (ev_notice_word i buffer) (ret success tt)))
       (4 * Z.of_nat k) w = (ex, w') ->
  target w' = target w /\
  exists d,
    (k + d <= m)%nat /\ (d <= fuel)%nat /\
    succeed_first d (faults w) /\
    ((ex = loop_finished /\ (k + d = m)%nat /\
      faults w' = skipn d (faults w) /\
      trace w' =
        trace w ++ dump_events (target w) (word_addresses k d)) \/
     (ex = loop_running /\ d = fuel /\ (k + d < m)%nat /\
      faults w' = skipn d (faults w) /\
      trace w' =
        trace w ++ dump_events (target w) (word_addresses k d)) \/
     (exists e,
        ex = loop_returned e /\ e <> success /\ (k + d < m)%nat /\
        nth d (faults w) success = e /\
        faults w' = skipn (S d) (faults w) /\
        trace w' =
          trace w ++ dump_events (target w) (word_addresses k d) ++
          [ev_target (op_read_word (4 * Z.of_nat (k + d))) e 0])).
Proof.
  induction fuel as [|fuel IH]; intros k w ex w' Hm Hk H; cbn [loop] in H.
  - destruct (Z.ltb_spec (4 * Z.of_nat k) (4 * Z.of_nat m)) as [Hlt|Hge];
      inversion H; subst; (split; [reflexivity|]); exists 0%nat;
      rewrite Nat.add_0_r; cbn [skipn word_addresses seq map dump_events flat_map];
      rewrite app_nil_r;
      (repeat split; [lia | lia | intros i Hi; lia |]).
    + right. left. repeat split. lia.
    + left. repeat split. lia.
  - destruct (Z.ltb_spec (4 * Z.of_nat k) (4 * Z.of_nat m)) as [Hlt|Hge].
    2:{ inversion H; subst. split; [reflexivity|]. exists 0%nat.
        rewrite Nat.add_0_r.
        cbn [skipn word_addresses seq map dump_events flat_map].
        rewrite app_nil_r.
        repeat split; [lia | lia | intros i Hi; lia |].
        left. repeat split. lia. }
    unfold Check at 1, read_word at 1 in H.
    destruct (hd success (faults w)) eqn:Hhd.
    + rewrite (perform_hd_success _ _ Hhd) in H.
      unfold log at 1, ret at 1, emit in H.
      cbn [target on_resume faults trace op_effect op_result] in H.
      replace (wrap32 (4 * Z.of_nat k + 4)) with (4 * Z.of_nat (S k)) in H
        by (unfold wrap32; rewrite Z.mod_small; lia).
      apply IH in H; [|exact Hm|lia].
      cbn [target on_resume faults trace] in H.
      destruct H as (Htg & d & Hd & Hdf & Hok & Hcase).
      split; [exact Htg|]. exists (S d).
      replace (k + S d)%nat with (S k + d)%nat by lia.
      split; [exact Hd|]. split; [lia|].
      split; [now apply succeed_first_cons|].
      rewrite word_addresses_S.
      cbn [dump_events flat_map app].
      destruct Hcase as [(-> & Hkd & Hf & Htr)
                        |[(-> & Hdfuel & Hkd & Hf & Htr)
                         |(e & -> & He & Hkd & Hn & Hf & Htr)]].
      * left. repeat split; auto;
          try (now rewrite skipn_S_tl).
        rewrite Htr, <- !app_assoc. reflexivity.
      * right. left. repeat split; auto;
          try (now rewrite skipn_S_tl).
        rewrite Htr, <- !app_assoc. reflexivity.
      * right. right. exists e.
        repeat split; auto;
          try (now rewrite nth_S_tl);
          try (now rewrite (skipn_S_tl _ (S d))).
        rewrite Htr, <- !app_assoc. reflexivity.
    + rewrite (perform_hd_error _ _ failure Hhd ltac:(discriminate)) in H.
      inversion H; subst. cbn [target faults trace].
      split; [reflexivity|]. exists 0%nat. rewrite Nat.add_0_r.
      cbn [word_addresses seq map dump_events flat_map app].
      repeat split; [lia | lia | intros i Hi; lia |].
      right. right. exists failure.
      repeat split; try discriminate; try lia; try reflexivity;
        destruct (faults w); cbn in Hhd |- *; congruence.
    + rewrite (perform_hd_error _ _ try_again Hhd ltac:(discriminate)) in H.
      inversion H; subst. cbn [target faults trace].
      split; [reflexivity|]. exists 0%nat. rewrite Nat.add_0_r.
      cbn [word_addresses seq map dump_events flat_map app].
      repeat split; [lia | lia | intros i Hi; lia |].
      right. right. exists try_again.
      repeat split; try discriminate; try lia; try reflexivity;
        destruct (faults w); cbn in Hhd |- *; congruence.
Qed.

(** X9: what [dump_flash] does for any count, fuel and fault schedule, in
    both its variants.  With [m] the count modulo 2^30 (the byte count is a
    32-bit product), it logs the count, then reads the words at 0, 4, ... in
    order, logging each with its value, and ends in one of three ways: in
    success after exactly [m] words; still running, out of fuel, which cannot
    happen once the fuel reaches 2^30; or with the error of the first read
    that failed, which it does not retry.  It never changes the target. *)
Theorem dump_flash_behaviour (n : Z) (fuel : nat) (w : World)
  (r : option Error) (w' : World) :
  swddump.dump_flash n fuel w = (r, w') ->
  let m := Z.to_nat (n mod 2 ^ 30) in
  swddump_rptr.dump_flash n fuel w = (r, w') /\
  target w' = target w /\
  (r = None -> Z.of_nat fuel < 2 ^ 30) /\
  exists d tail,
    (d <= m)%nat /\ (d <= fuel)%nat /\
    succeed_first d (faults w) /\
    trace w' =
      trace w ++ ev_notice_first_words n ::
      dump_events (target w) (word_addresses 0 d) ++ tail /\
    ((r = Some success /\ d = m /\ tail = []) \/
     (r = None /\ d = fuel /\ (d < m)%nat /\ tail = []) \/
     (exists e,
        r = Some e /\ e <> success /\ (d < m)%nat /\
        nth d (faults w) success = e /\
        tail = [ev_target (op_read_word (4 * Z.of_nat d)) e 0])).
Proof.
  intros H m.
  split; [now rewrite dump_flash_variants_agree|].
  pose proof (Z.mod_pos_bound n (2 ^ 30) ltac:(lia)) as Hmod.
  assert (Hm : n mod 2 ^ 30 = Z.of_nat m) by (unfold m; lia).
  unfold swddump.dump_flash, LogThen in H.
  rewrite wrap32_mul_4, Hm in H.
  match type of H with context [loop ?f ?c ?s ?b 0 ?x] =>
    destruct (loop f c s b 0 x) as [ex w1] eqn:Hloop
  end.
  change 0 with (4 * Z.of_nat 0) in Hloop.
  apply dump_loop_behaviour in Hloop; [|lia|lia].
  unfold emit in Hloop. cbn [target faults trace Nat.add] in Hloop.
  destruct Hloop as (Htg & d & Hd & Hdf & Hok & Hcase).
  destruct Hcase as [(-> & Hkd & Hf & Htr)
                    |[(-> & Hdfuel & Hkd & Hf & Htr)
                     |(e & -> & He & Hkd & Hn & Hf & Htr)]];
    inversion H; subst r w'; clear H.
  - split; [exact Htg|]. split; [discriminate|].
    exists d, []. rewrite app_nil_r.
    split; [lia|]. split; [lia|]. split; [exact Hok|].
    split; [now rewrite Htr, <- app_assoc|].
    left. repeat split. lia.
  - split; [exact Htg|]. split; [intros _; lia|].
    exists d, []. rewrite app_nil_r.
    split; [lia|]. split; [lia|]. split; [exact Hok|].
    split; [now rewrite Htr, <- app_assoc|].
    right. left. repeat split; [exact Hdfuel | lia].
  - split; [exact Htg|]. split; [discriminate|].
    exists d, [ev_target (op_read_word (4 * Z.of_nat d)) e 0].
    split; [lia|]. split; [lia|]. split; [exact Hok|].
    split; [now rewrite Htr, <- !app_assoc|].
    right. right. exists e.
    split; [reflexivity|]. split; [exact He|]. split; [lia|].
    split; [exact Hn | reflexivity].
Qed.

Lemma dump_flash_behaviour_witness :
  swddump_rptr.dump_flash (2 ^ 30 + 2) 5 writec_world =
    (Some success, snd (swddump.dump_flash (2 ^ 30 + 2) 5 writec_world)) /\
  target (snd (swddump.dump_flash (2 ^ 30 + 2) 5 writec_world)) =
    target writec_world.
Proof.
  assert (H : swddump.dump_flash (2 ^ 30 + 2) 5 writec_world =
              (Some success,
               snd (swddump.dump_flash (2 ^ 30 + 2) 5 writec_world)))
    by (vm_compute; reflexivity).
  destruct (dump_flash_behaviour _ _ _ _ _ H) as (Hvar & Htg & _).
  split; [exact Hvar | exact Htg].
Defined.

(** ** Failures before the target is polled *)

(** X10: when one of the six initialisation calls of [host_main] fails,
    [host_main] returns its error at once: the calls before it were made in
    order (with the 10 ms pause after reset is asserted), no later call is
    made, and the target is not polled. *)
Theorem host_main_init_failure (fuel : nat) (w : World) (k : nat)
  (e : Error) (rest : list Error) :
  (k < 6)%nat ->
  e <> success ->
  faults w = repeat success k ++ e :: rest ->
  swdhost.host_main fuel w =
  (Some e,
   mkWorld (target w) (on_resume w) rest
     (trace w ++
      flat_map (call_events 10000) (firstn k host_init_calls) ++
      [ev_extern (nth k host_init_calls swd_initialize) e])).
Proof.
  intros Hk He Hf. destruct w as [tg run fs tr]. cbn [faults] in Hf. subst fs.
  cbn [target on_resume trace].
  do 6 (destruct k as [|k];
        [destruct e; [congruence| |]; cbn [repeat app]; lazy -[app];
         rewrite <- ?app_assoc; reflexivity|]).
  lia.
Qed.

Lemma host_main_init_failure_witness :
  swdhost.host_main 3 (quiet (halted_on_request 0x3)
                         [success; success; try_again; failure]) =
  (Some try_again,
   mkWorld (halted_on_request 0x3) (fun t => t) [failure]
     [ ev_extern swd_initialize success;
       ev_extern swd_enter_reset success;
       ev_usleep 10000;
       ev_extern dap_reset_state try_again ]).
Proof.
  apply (host_main_init_failure 3
           (quiet (halted_on_request 0x3)
                  [success; success; try_again; failure])
           2 try_again [failure]).
  - lia.
  - discriminate.
  - reflexivity.
Defined.

(** X11: in both variants of the dumper, when a call that prepares the
    target fails, or the write of SYSMEMREMAP itself (which is not retried),
    [run_experiment] returns that error at once: the earlier calls were made
    in order, and not one word of flash is read. *)
Theorem dump_preparation_failure (count : Z) (fuel : nat) (w : World)
  (k : nat) (e : Error) (rest : list Error) :
  e <> success ->
  faults w = repeat success k ++ e :: rest ->
  let ended l := (Some e, mkWorld (target w) (on_resume w) rest (trace w ++ l)) in
  ((k < 5)%nat ->
   swddump.run_experiment count fuel w =
   ended (succeeded (firstn k dump_init_calls) ++
          [ev_extern (nth k dump_init_calls swd_initialize) e])) /\
  (k = 5%nat ->
   swddump.run_experiment count fuel w =
   ended (succeeded dump_init_calls ++
          [ev_target (op_write_word 0x40048000 2) e 0])) /\
  ((k < 6)%nat ->
   swddump_rptr.run_experiment count fuel w =
   ended (flat_map (call_events 100000) (firstn k dump_rptr_init_calls) ++
          [ev_extern (nth k dump_rptr_init_calls swd_initialize) e])) /\
  (k = 6%nat ->
   swddump_rptr.run_experiment count fuel w =
   ended (flat_map (call_events 100000) dump_rptr_init_calls ++
          [ev_target (op_write_word SYSCON.SYSMEMREMAP
                        SYSCON.SYSMEMREMAP_MAP_USER_FLASH) e 0])).
Proof.
  intros He Hf ended. unfold ended.
  destruct w as [tg run fs tr]. cbn [faults] in Hf. subst fs.
  cbn [target on_resume trace].
  split; [|split; [|split]].
  - intros Hk.
    do 5 (destruct k as [|k];
          [destruct e; [congruence| |]; cbn [repeat app]; lazy -[app];
           rewrite <- ?app_assoc; reflexivity|]).
    lia.
  - intros ->. destruct e; [congruence| |]; cbn [repeat app]; lazy -[app];
      rewrite <- ?app_assoc; reflexivity.
  - intros Hk.
    do 6 (destruct k as [|k];
          [destruct e; [congruence| |]; cbn [repeat app]; lazy -[app];
           rewrite <- ?app_assoc; reflexivity|]).
    lia.
  - intros ->. destruct e; [congruence| |]; cbn [repeat app]; lazy -[app];
      rewrite <- ?app_assoc; reflexivity.
Qed.

Lemma dump_preparation_failure_witness :
  swddump.run_experiment 32 40
    (quiet (halted_on_request 0x3) (repeat success 5 ++ [try_again])) =
  (Some try_again,
   mkWorld (halted_on_request 0x3) (fun t => t) []
     ([] ++ succeeded dump_init_calls ++
      [ev_target (op_write_word 0x40048000 2) try_again 0])).
Proof.
  apply (proj1 (proj2 (dump_preparation_failure 32 40
           (quiet (halted_on_request 0x3) (repeat success 5 ++ [try_again]))
           5 try_again [] ltac:(discriminate) eq_refl))).
  reflexivity.
Defined.

(** ** Failures while the USB device is opened *)

(** X12: when one of the eight calls by which the semihosting host's
    [error_main] opens the device fails, and the clean-up that follows
    succeeds, [error_main] returns the error of that call, having released
    exactly what the calls before it had acquired, last acquired first:
    [ftdi_usb_close] for the opened device, [libusb_close] for the handle,
    [ftdi_deinit], [libusb_exit].  [host_main] is not run. *)
Theorem host_error_main_releases (programmer : string) (fuel : nat)
  (w : World) (k : nat) (e : Error) (rest : list Error) :
  In programmer swdhost.programmer_table ->
  (k < 8)%nat ->
  e <> success ->
  faults w = repeat success k ++ e :: rest ->
  Forall (eq success) rest ->
  exists w',
    swdhost.error_main programmer fuel w = (Some e, w') /\
    target w' = target w /\
    trace w' =
      trace w ++ succeeded (firstn k host_usb_calls) ++
      ev_extern (nth k host_usb_calls libusb_init) e ::
      releases (firstn k host_usb_calls).
Proof.
  intros Hin Hk He Hf Hrest.
  destruct w as [tg run fs tr]. cbn [faults] in Hf. subst fs.
  cbn [target trace].
  assert (Hr1 : hd success rest = success)
    by (destruct Hrest; [reflexivity | now subst]).
  destruct rest as [|r1 rest]; cbn [hd] in Hr1; [|subst r1];
    (destruct Hin as [<-|[<-|[]]]);
    (do 8 (destruct k as [|k];
           [destruct e; [congruence| |]; cbn [repeat app];
            (eexists; split; [lazy -[app]; reflexivity|]);
            (split; [reflexivity|]);
            lazy -[app]; rewrite <- ?app_assoc; reflexivity|]));
    lia.
Qed.

Lemma host_error_main_releases_witness :
  exists w',
    swdhost.error_main "um232h" 4
      (quiet (halted_on_request 0x3) (repeat success 6 ++ [failure])) =
      (Some failure, w') /\
    target w' = halted_on_request 0x3 /\
    trace w' =
      [ ev_extern libusb_init success;
        ev_extern ftdi_init success;
        ev_extern libusb_open_device_with_vid_pid success;
        ev_extern libusb_get_device success;
        ev_extern ftdi_set_interface success;
        ev_extern ftdi_usb_open_dev success;
        ev_extern ftdi_usb_reset failure;
        ev_extern ftdi_usb_close success;
        ev_cleanup "libusb_close";
        ev_cleanup "ftdi_deinit";
        ev_cleanup "libusb_exit" ].
Proof.
  apply (host_error_main_releases "um232h" 4
           (quiet (halted_on_request 0x3) (repeat success 6 ++ [failure]))
           6 failure []).
  - now left.
  - lia.
  - discriminate.
  - reflexivity.
  - constructor.
Defined.

(** X13: the same for the dumper's [error_main] and its five calls:
    [ftdi_usb_close] for the opened device, then [ftdi_deinit].
    [run_experiment] is not run. *)
Theorem dump_error_main_releases (count : Z) (fuel : nat)
  (w : World) (k : nat) (e : Error) (rest : list Error) :
  (k < 5)%nat ->
  e <> success ->
  faults w = repeat success k ++ e :: rest ->
  Forall (eq success) rest ->
  exists w',
    swddump.error_main count fuel w = (Some e, w') /\
    target w' = target w /\
    trace w' =
      trace w ++ succeeded (firstn k dump_usb_calls) ++
      ev_extern (nth k dump_usb_calls ftdi_init) e ::
      releases (firstn k dump_usb_calls).
Proof.
  intros Hk He Hf Hrest.
  destruct w as [tg run fs tr]. cbn [faults] in Hf. subst fs.
  cbn [target trace].
  assert (Hr1 : hd success rest = success)
    by (destruct Hrest; [reflexivity | now subst]).
  destruct rest as [|r1 rest]; cbn [hd] in Hr1; [|subst r1];
    (do 5 (destruct k as [|k];
           [destruct e; [congruence| |]; cbn [repeat app];
            (eexists; split; [lazy -[app]; reflexivity|]);
            (split; [reflexivity|]);
            lazy -[app]; rewrite <- ?app_assoc; reflexivity|]));
    lia.
Qed.

Lemma dump_error_main_releases_witness :
  exists w',
    swddump.error_main 32 40
      (quiet (halted_on_request 0x3) (repeat success 1 ++ [failure])) =
      (Some failure, w') /\
    target w' = halted_on_request 0x3 /\
    trace w' =
      [ ev_extern ftdi_init success;
        ev_extern ftdi_usb_open failure;
        ev_cleanup "ftdi_deinit" ].
Proof.
  apply (dump_error_main_releases 32 40
           (quiet (halted_on_request 0x3) (repeat success 1 ++ [failure]))
           1 failure []).
  - lia.
  - discriminate.
  - reflexivity.
  - constructor.
Defined.

(** ** Clean-up after the tool proper *)

Lemma CheckCleanup_extern_ok c label k w :
  hd success (faults w) = success ->
  CheckCleanup (extern c) label k w =
  k (mkWorld (target w) (on_resume w) (tl (faults w))
             (trace w ++ [ev_extern c success])).
Proof. intros H. unfold CheckCleanup, extern. cbv zeta. now rewrite H. Qed.

Lemma CheckThen_extern_error c k w e :
  hd success (faults w) = e -> e <> success ->
  CheckThen (extern c) k w =
  (Some e, mkWorld (target w) (on_resume w) (tl (faults w))
                   (trace w ++ [ev_extern c e])).
Proof.
  intros H He. unfold CheckThen, extern. cbv zeta. rewrite H.
  now destruct e.
Qed.

Lemma host_error_main_enters programmer fuel w :
  In programmer swdhost.programmer_table ->
  succeed_first 8 (faults w) ->
  swdhost.error_main programmer fuel w =
  match swdhost.host_main fuel (opened host_usb_calls w) with
  | (Some e, w1) => swdhost.host_failed e w1
  | (None, w1) => (None, w1)
  end.
Proof.
  intros Hin H. unfold swdhost.error_main.
  assert (Hlook : swdhost.lookup_programmer programmer w = (success, tt, w))
    by (destruct Hin as [<-|[<-|[]]]; reflexivity).
  unfold CheckThen at 1. rewrite Hlook.
  do 8 (apply succeed_first_tl in H; destruct H as [Hhd H];
        rewrite CheckCleanup_extern_ok by exact Hhd; clear Hhd).
  unfold LogThen, emit, opened. cbn [target on_resume faults trace].
  rewrite <- !app_assoc. cbn [app succeeded host_usb_calls map List.length].
  now rewrite !skipn_S_tl.
Qed.

(** X14: once the semihosting host's [error_main] has opened the device, it
    runs [host_main] and cleans up after it.  If the clean-up calls succeed,
    it resets the bit mode, releases everything in reverse order of
    acquisition and returns [host_main]'s error.  But a clean-up call that
    fails ends [error_main] on the spot with its own error, which replaces
    [host_main]'s, and the releases after it are not made. *)
Theorem host_error_main_cleanup (programmer : string) (fuel : nat)
  (w : World) (e : Error) (w1 : World) :
  In programmer swdhost.programmer_table ->
  succeed_first 8 (faults w) ->
  swdhost.host_main fuel (opened host_usb_calls w) = (Some e, w1) ->
  let ends r l fs :=
    swdhost.error_main programmer fuel w =
    (Some r, mkWorld (target w1) (on_resume w1) fs (trace w1 ++ l)) in
  (succeed_first 2 (faults w1) ->
   ends e (ev_extern ftdi_set_bitmode success :: releases host_usb_calls)
        (skipn 2 (faults w1))) /\
  (forall e1, e1 <> success -> hd success (faults w1) = e1 ->
   ends e1 [ev_extern ftdi_set_bitmode e1] (tl (faults w1))) /\
  (forall e2, e2 <> success ->
   hd success (faults w1) = success -> hd success (tl (faults w1)) = e2 ->
   ends e2 [ev_extern ftdi_set_bitmode success; ev_extern ftdi_usb_close e2]
        (tl (tl (faults w1)))).
Proof.
  intros Hin Hok Hmain ends. unfold ends.
  rewrite (host_error_main_enters _ _ _ Hin Hok), Hmain.
  unfold swdhost.host_failed, swdhost.reset_failed.
  split; [|split].
  - intros H2.
    apply succeed_first_tl in H2. destruct H2 as [Hhd1 H2].
    apply succeed_first_tl in H2. destruct H2 as [Hhd2 _].
    rewrite CheckThen_extern_ok by exact Hhd1.
    rewrite CheckThen_extern_ok by exact Hhd2.
    lazy -[app skipn tl]. rewrite <- !app_assoc. cbn [app].
    now rewrite !skipn_S_tl.
  - intros e1 He1 Hhd1.
    now rewrite (CheckThen_extern_error _ _ _ e1 Hhd1 He1).
  - intros e2 He2 Hhd1 Hhd2.
    rewrite CheckThen_extern_ok by exact Hhd1.
    rewrite (CheckThen_extern_error _ _ _ e2) by assumption.
    cbn [target on_resume faults trace]. now rewrite <- app_assoc.
Qed.

Lemma masked_error_world_runs :
  swdhost.host_main 3
    (opened host_usb_calls
       (quiet (halted_on_request 0x3)
              (repeat success 8 ++ [try_again; failure]))) =
  (Some try_again,
   snd (swdhost.host_main 3
          (opened host_usb_calls
             (quiet (halted_on_request 0x3)
                    (repeat success 8 ++ [try_again; failure]))))).
Proof. vm_compute. reflexivity. Qed.

Lemma host_error_main_cleanup_witness :
  fst (swdhost.error_main "um232h" 3
         (quiet (halted_on_request 0x3)
                (repeat success 8 ++ [try_again; failure]))) =
  Some failure.
Proof.
  destruct (host_error_main_cleanup "um232h" 3
              (quiet (halted_on_request 0x3)
                     (repeat success 8 ++ [try_again; failure]))
              try_again _
              ltac:(now left)
              ltac:(intros i Hi; do 8 (destruct i as [|i]; [reflexivity|]); lia)
              masked_error_world_runs) as (_ & H & _).
  rewrite (H failure ltac:(discriminate) eq_refl). reflexivity.
Defined.

Lemma dump_error_main_enters count fuel w :
  succeed_first 5 (faults w) ->
  swddump.error_main count fuel w =
  match swddump.run_experiment count fuel (opened dump_usb_calls w) with
  | (Some e, w1) => swddump.experiment_failed e w1
  | (None, w1) => (None, w1)
  end.
Proof.
  intros H. unfold swddump.error_main.
  do 5 (apply succeed_first_tl in H; destruct H as [Hhd H];
        rewrite CheckCleanup_extern_ok by exact Hhd; clear Hhd).
  unfold LogThen, emit, opened. cbn [target on_resume faults trace].
  rewrite <- !app_assoc. cbn [app succeeded dump_usb_calls map List.length].
  now rewrite !skipn_S_tl.
Qed.

(** X15: once the dumper's [error_main] has opened the device, it runs
    [run_experiment] and cleans up after it, whether it succeeded or not.  If
    the clean-up calls succeed, it resets the bit mode, closes the device,
    deinitialises, and returns [run_experiment]'s result.  But a clean-up
    call that fails ends [error_main] on the spot with its own error, even
    after a dump that succeeded, and the releases after it are not made. *)
Theorem dump_error_main_cleanup (count : Z) (fuel : nat)
  (w : World) (e : Error) (w1 : World) :
  succeed_first 5 (faults w) ->
  swddump.run_experiment count fuel (opened dump_usb_calls w) = (Some e, w1) ->
  let ends r l fs :=
    swddump.error_main count fuel w =
    (Some r, mkWorld (target w1) (on_resume w1) fs (trace w1 ++ l)) in
  (succeed_first 2 (faults w1) ->
   ends e (ev_extern ftdi_set_bitmode success :: releases dump_usb_calls)
        (skipn 2 (faults w1))) /\
  (forall e1, e1 <> success -> hd success (faults w1) = e1 ->
   ends e1 [ev_extern ftdi_set_bitmode e1] (tl (faults w1))) /\
  (forall e2, e2 <> success ->
   hd success (faults w1) = success -> hd success (tl (faults w1)) = e2 ->
   ends e2 [ev_extern ftdi_set_bitmode success; ev_extern ftdi_usb_close e2]
        (tl (tl (faults w1)))).
Proof.
  intros Hok Hrun ends. unfold ends.
  rewrite (dump_error_main_enters _ _ _ Hok), Hrun.
  unfold swddump.experiment_failed, swddump.reset_failed.
  split; [|split].
  - intros H2.
    apply succeed_first_tl in H2. destruct H2 as [Hhd1 H2].
    apply succeed_first_tl in H2. destruct H2 as [Hhd2 _].
    rewrite CheckThen_extern_ok by exact Hhd1.
    rewrite CheckThen_extern_ok by exact Hhd2.
    lazy -[app skipn tl]. rewrite <- !app_assoc. cbn [app].
    now rewrite !skipn_S_tl.
  - intros e1 He1 Hhd1.
    now rewrite (CheckThen_extern_error _ _ _ e1 Hhd1 He1).
  - intros e2 He2 Hhd1 Hhd2.
    rewrite CheckThen_extern_ok by exact Hhd1.
    rewrite (CheckThen_extern_error _ _ _ e2) by assumption.
    cbn [target on_resume faults trace]. now rewrite <- app_assoc.
Qed.

Lemma good_dump_world_runs :
  swddump.run_experiment 2 2
    (opened dump_usb_calls
       (quiet (halted_on_request 0x3) (repeat success 13 ++ [failure]))) =
  (Some success,
   snd (swddump.run_experiment 2 2
          (opened dump_usb_calls
             (quiet (halted_on_request 0x3)
                    (repeat success 13 ++ [failure]))))).
Proof. vm_compute. reflexivity. Qed.

Lemma dump_error_main_cleanup_witness :
  fst (swddump.error_main 2 2
         (quiet (halted_on_request 0x3) (repeat success 13 ++ [failure]))) =
  Some failure.
Proof.
  destruct (dump_error_main_cleanup 2 2
              (quiet (halted_on_request 0x3) (repeat success 13 ++ [failure]))
              success _
              ltac:(intros i Hi; do 5 (destruct i as [|i]; [reflexivity|]); lia)
              good_dump_world_runs) as (_ & H & _).
  rewrite (H failure ltac:(discriminate) eq_refl). reflexivity.
Defined.

(** * Exit codes *)

Lemma CheckThen_returns {A} (c : Call A) (k : Run) :
  returns k -> returns (CheckThen c k).
Proof.
  intros Hk w. unfold CheckThen.
  destruct (c w) as [[[] a] w1]; cbn [fst]; try discriminate. apply Hk.
Qed.

Lemma LogThen_returns e (k : Run) : returns k -> returns (LogThen e k).
Proof. intros Hk w. apply Hk. Qed.

Lemma CheckCleanup_returns {A} (c : Call A) label (k : Run) :
  (forall e, returns (label e)) -> returns k ->
  returns (CheckCleanup c label k).
Proof.
  intros Hl Hk w. unfold CheckCleanup.
  destruct (c w) as [[[] a] w1]; [apply Hk | apply Hl | apply Hl].
Qed.

Lemma CheckRun_returns (c k : Run) :
  returns c -> returns k -> returns (CheckRun c k).
Proof.
  intros Hc Hk w. unfold CheckRun. specialize (Hc w).
  destruct (c w) as [[[]|] w1]; cbn [fst] in *; try discriminate;
    [apply Hk | congruence].
Qed.

Lemma wrap32_mod_2_30 n : wrap32 n mod 2 ^ 30 = n mod 2 ^ 30.
Proof.
  unfold wrap32. apply Z.mod_mod_divide. exists 4. reflexivity.
Qed.

(** With fuel for every word of the count, [dump_flash] returns. *)
Lemma dump_flash_returns count fuel :
  count mod 2 ^ 30 <= Z.of_nat fuel ->
  returns (swddump.dump_flash (wrap32 count) fuel).
Proof.
  intros Hfuel w Hnone.
  pose proof (Z.mod_pos_bound count (2 ^ 30) ltac:(lia)) as Hmod.
  unfold swddump.dump_flash, LogThen in Hnone.
  rewrite wrap32_mul_4, wrap32_mod_2_30 in Hnone.
  replace (count mod 2 ^ 30)
    with (Z.of_nat (Z.to_nat (count mod 2 ^ 30))) in Hnone by lia.
  match type of Hnone with context [loop ?f ?c ?s ?b 0 ?x] =>
    destruct (loop f c s b 0 x) as [ex w1] eqn:Hloop
  end.
  change 0 with (4 * Z.of_nat 0) in Hloop.
  apply dump_loop_behaviour in Hloop; [|lia|lia].
  destruct Hloop as (_ & d & Hd & Hdf & _ & Hcase).
  destruct Hcase as [(-> & _) | [(-> & Hdfuel & Hkd & _) | (e & -> & _)]];
    cbn [fst] in Hnone; try discriminate.
  lia.
Qed.

Lemma dump_error_main_returns count fuel :
  count mod 2 ^ 30 <= Z.of_nat fuel ->
  returns (swddump.error_main count fuel).
Proof.
  intros Hfuel.
  assert (Hclose : forall e, returns (swddump.reset_failed e)).
  { intros e. apply CheckThen_returns, LogThen_returns.
    intros w. discriminate. }
  assert (Hrun : returns (swddump.run_experiment count fuel)).
  { unfold swddump.run_experiment.
    do 6 apply CheckThen_returns.
    apply CheckRun_returns; [now apply dump_flash_returns|].
    intros w. discriminate. }
  unfold swddump.error_main.
  apply CheckCleanup_returns; [intros e w; discriminate|].
  apply CheckCleanup_returns;
    [intros e; apply LogThen_returns; intros w; discriminate|].
  do 3 (apply CheckCleanup_returns; [exact Hclose|]).
  apply LogThen_returns. intros w. specialize (Hrun w).
  destruct (swddump.run_experiment count fuel w) as [[e|] w1];
    [|now cbn [fst] in Hrun].
  apply CheckThen_returns. apply Hclose.
Qed.

Lemma dump_rptr_error_main_returns lookup programmer count fuel :
  count mod 2 ^ 30 <= Z.of_nat fuel ->
  returns (swddump_rptr.error_main lookup programmer count fuel).
Proof.
  intros Hfuel. unfold swddump_rptr.error_main.
  do 2 apply CheckThen_returns.
  apply CheckRun_returns; [|intros w; discriminate].
  unfold swddump_rptr.run_experiment.
  do 2 apply CheckThen_returns. apply LogThen_returns.
  do 5 apply CheckThen_returns.
  apply CheckRun_returns; [|intros w; discriminate].
  intros w. rewrite dump_flash_variants_agree.
  now apply dump_flash_returns.
Qed.

Ltac main_exits :=
  unfold exits; cbv zeta;
  match goal with
  | |- context [extern CommandLine_parse ?w] =>
      destruct (extern CommandLine_parse w) as [[[] ?] ?w1]
  end;
  cbn [fst snd];
  try match goal with
  | |- context [match ?em with _ => _ end] =>
      destruct em as [[[]|] ?w2]
  end;
  cbn [fst snd];
  repeat split; intros;
  repeat match goal with H : _ /\ _ |- _ => destruct H end;
  try congruence; try discriminate;
  try (match goal with H : Some _ = Some _ |- _ => inversion H end; lia).

(** C9: for both tools (and for the remote-pointer variant of the dumper),
    [main] returns exit code 0 exactly when the command-line parse and
    [error_main] both succeeded, and then it prints nothing; when the parse
    fails it returns 1 after printing the error stack, without entering
    [error_main]; when [error_main] returns an error it returns 1 after
    printing the error stack, which is the last thing it does; it returns no
    other code, and it is still running only while [error_main] is.  The
    dumper's [error_main] returns once the fuel covers the words of the
    count, so its [main] always ends with one of the two codes. *)
Theorem main_exit_code :
  (forall programmer fuel w,
     let parsed := extern CommandLine_parse w in
     exits parsed
       (swdhost.error_main programmer fuel (emit ev_set_level (snd parsed)))
       (swdhost.main programmer fuel w)) /\
  (forall count fuel w,
     let parsed := extern CommandLine_parse w in
     exits parsed
       (swddump.error_main count fuel (emit ev_set_level (snd parsed)))
       (swddump.main count fuel w) /\
     (count mod 2 ^ 30 <= Z.of_nat fuel ->
      fst (swddump.main count fuel w) = Some 0 \/
      fst (swddump.main count fuel w) = Some 1)) /\
  (forall lookup_programmer programmer count fuel w,
     let parsed := extern CommandLine_parse w in
     exits parsed
       (swddump_rptr.error_main lookup_programmer programmer count fuel
          (emit ev_set_level (snd parsed)))
       (swddump_rptr.main lookup_programmer programmer count fuel w) /\
     (count mod 2 ^ 30 <= Z.of_nat fuel ->
      fst (swddump_rptr.main lookup_programmer programmer count fuel w)
        = Some 0 \/
      fst (swddump_rptr.main lookup_programmer programmer count fuel w)
        = Some 1)).
Proof.
  split; [|split].
  - intros programmer fuel w. unfold swdhost.main. main_exits.
  - intros count fuel w. split.
    + unfold swddump.main. main_exits.
    + intros Hfuel. unfold swddump.main. cbv zeta.
      destruct (extern CommandLine_parse w) as [[[] u] w1]; cbn [fst];
        auto.
      pose proof (dump_error_main_returns count fuel Hfuel
                    (emit ev_set_level w1)) as Hret.
      destruct (swddump.error_main count fuel (emit ev_set_level w1))
        as [[[]|] w2]; cbn [fst] in *; auto; congruence.
  - intros lookup programmer count fuel w. split.
    + unfold swddump_rptr.main. main_exits.
    + intros Hfuel. unfold swddump_rptr.main. cbv zeta.
      destruct (extern CommandLine_parse w) as [[[] u] w1]; cbn [fst];
        auto.
      pose proof (dump_rptr_error_main_returns lookup programmer count fuel
                    Hfuel (emit ev_set_level w1)) as Hret.
      destruct (swddump_rptr.error_main lookup programmer count fuel
                  (emit ev_set_level w1))
        as [[[]|] w2]; cbn [fst] in *; auto; congruence.
Qed.

Lemma bad_command_line_parse :
  fst (fst (extern CommandLine_parse bad_command_line)) <> success.
Proof. discriminate. Qed.

Lemma no_probe_runs :
  fst (fst (extern CommandLine_parse no_probe)) = success /\
  fst (swddump.error_main 2 2
         (emit ev_set_level (snd (extern CommandLine_parse no_probe))))
    = Some failure.
Proof. vm_compute. split; reflexivity. Qed.

Lemma main_exit_code_witness :
  (swddump.main 2 2 bad_command_line =
     (Some 1,
      emit ev_error_stack_print
        (snd (extern CommandLine_parse bad_command_line))) /\
   trace (snd (swddump.main 2 2 bad_command_line)) =
     [ ev_extern CommandLine_parse failure; ev_error_stack_print ]) /\
  (swddump.main 2 2 no_probe =
     (Some 1,
      emit ev_error_stack_print
        (snd (swddump.error_main 2 2
                (emit ev_set_level
                   (snd (extern CommandLine_parse no_probe)))))) /\
   trace (snd (swddump.main 2 2 no_probe)) =
     [ ev_extern CommandLine_parse success; ev_set_level;
       ev_extern ftdi_init failure; ev_error_stack_print ]) /\
  (fst (swddump.main 2 2 writec_world) = Some 0 \/
   fst (swddump.main 2 2 writec_world) = Some 1) /\
  fst (swddump.main 2 2 writec_world) = Some 0.
Proof.
  destruct (proj1 (proj2 main_exit_code) 2 2%nat bad_command_line)
    as ((_ & _ & Hparse & _) & _).
  destruct (proj1 (proj2 main_exit_code) 2 2%nat no_probe)
    as ((_ & _ & _ & Hrun & _) & _).
  destruct (proj1 (proj2 main_exit_code) 2 2%nat writec_world)
    as ((Hzero & _) & Hend).
  specialize (Hparse bad_command_line_parse).
  specialize (Hrun failure (proj1 no_probe_runs) (proj2 no_probe_runs)
                ltac:(discriminate)).
  split; [split; [exact Hparse | now rewrite Hparse]|].
  split; [split; [exact Hrun | now rewrite Hrun]|].
  split; [apply Hend; vm_compute; discriminate|].
  apply Hzero. vm_compute. split; reflexivity.
Defined.
